(** * dirwatcher: a shallow embedding of [dirwatcher.py]

    The program polls a directory, keeps the module-level dictionary
    [files] (file name -> number of lines already read) in step with the
    directory listing, and calls [find_magic] on tracked files.

    Conventions of the embedding.
    - Python [int] is [Z]; [str] is [string].
    - The dictionary [files] is an association list in insertion order:
      Python dictionaries iterate in insertion order and the order of the
      log records depends on it.
    - [logger.*] calls and [time.sleep] are recorded, in program order, in a
      trace of [event]s.
    - Exceptions are values of [exn]; a computation is a function from the
      module globals to an outcome, the new globals and the trace it wrote.
    - The file system is an input: what [os.listdir] and [open] answer
      during one pass of the loop. *)

From Stdlib Require Import String Ascii List ZArith QArith Bool Lia.
From Stdlib Require Import Sorted Permutation Qround OrdersEx.
Import ListNotations.
Local Open Scope string_scope.
Local Open Scope Z_scope.
Local Open Scope list_scope.

(** ** Strings *)

Module Str.

(** [sub in s], Python's substring test on [str]. *)
Fixpoint contains (sub s : string) : bool :=
  if String.prefix sub s then true
  else match s with
       | EmptyString => false
       | String _ rest => contains sub rest
       end.

(** [s.endswith(suffix)]. *)
Fixpoint endswith (s suffix : string) : bool :=
  if String.eqb s suffix then true
  else match s with
       | EmptyString => false
       | String _ rest => endswith rest suffix
       end.

(** [s.startswith(p)]. *)
Definition startswith (s p : string) : bool := String.prefix p s.

(** [x in xs] for a list of strings. *)
Fixpoint mem (x : string) (xs : list string) : bool :=
  match xs with
  | [] => false
  | y :: ys => if String.eqb x y then true else mem x ys
  end.

Definition newline : ascii := ascii_of_nat 10.

(** The lines a text file object yields when iterated: each line keeps its
    terminating newline; a last line without one is yielded as it is; empty
    content yields nothing. [cur] is the line read so far. *)
Fixpoint readlines_from (cur content : string) : list string :=
  match content with
  | EmptyString =>
      match cur with
      | EmptyString => []
      | _ => [cur]
      end
  | String c rest =>
      if Ascii.eqb c newline
      then (cur ++ String c EmptyString)%string
           :: readlines_from EmptyString rest
      else readlines_from (cur ++ String c EmptyString)%string rest
  end.

Definition readlines (content : string) : list string :=
  readlines_from EmptyString content.

(** A line of text followed by its newline. *)
Definition ln (s : string) : string :=
  (s ++ String newline EmptyString)%string.

End Str.

(** ** Exceptions, log records, events *)

(** The exception classes that occur; all of them derive from [Exception]. *)
Inductive exn : Type :=
| OSError (errno : Z)
| TypeError (msg : string)
| KeyError (key : string)
| ValueError (msg : string)
| OverflowError (msg : string).

Definition ENOENT : Z := 2.
Definition EACCES : Z := 13.

Definition is_OSError (e : exn) : bool :=
  match e with OSError _ => true | _ => false end.

(** [isinstance(e, Exception)]. *)
Definition is_Exception (e : exn) : bool :=
  match e with
  | OSError _ | TypeError _ | KeyError _ | ValueError _
  | OverflowError _ => true
  end.

(** A Python [float]: finite values are rationals. *)
Inductive pyfloat : Type :=
| Finite (q : Q)
| Infinity (negative : bool)
| NaN.

(** [int(x)] for a float [x]: truncation toward zero. *)
Definition py_int (x : pyfloat) : exn + Z :=
  match x with
  | Finite q => inr (Z.quot (Qnum q) (Zpos (Qden q)))
  | Infinity _ => inl (OverflowError "cannot convert float infinity to integer")
  | NaN => inl (ValueError "cannot convert float NaN to integer")
  end.

Inductive level : Type := INFO | WARNING | ERROR.

(** The log records of the program, one constructor per format string. *)
Inductive message : Type :=
| Watching (path ext : string) (interval : pyfloat) (magic : string)
    (* 'Watching directory: {}, File Extension: {}, Polling Interval: {},
       Magic Text: {}' *)
| Added (file : string)
    (* f"{file} added to watchlist." *)
| Removed (file : string)
    (* f"{file} removed from watchlist." *)
| Found (filename magic_word : string) (line : Z)
    (* f"this file: {filename} found: {magic_word} on line:
       {line_number + 1}" *)
| DirectoryNotFound (path : string)
    (* f"{args.path} directory not found" *)
| ErrorRecord (error : exn)
    (* logger.error(error) *)
| Unhandled (error : exn)
    (* f"UNHANDLED EXCEPTION: {error}" *)
| Received (signame : string)
    (* 'Received ' + signames[sig_num] *).

Inductive event : Type :=
| Log (lvl : level) (msg : message)
| Sleep (secs : Z).

Definition trace := list event.

(** ** The dictionary [files] *)

Definition dict := list (string * Z).

Module Dict.

Fixpoint get (k : string) (d : dict) : option Z :=
  match d with
  | [] => None
  | (k', v) :: rest => if String.eqb k k' then Some v else get k rest
  end.

(** [k in d]. *)
Definition mem (k : string) (d : dict) : bool :=
  match get k d with Some _ => true | None => false end.

(** [d[k] = v]: an existing key keeps its place, a new one goes last. *)
Fixpoint set (k : string) (v : Z) (d : dict) : dict :=
  match d with
  | [] => [(k, v)]
  | (k', v') :: rest =>
      if String.eqb k k' then (k', v) :: rest else (k', v') :: set k v rest
  end.

(** [del d[k]], for a key that is present. *)
Fixpoint remove (k : string) (d : dict) : dict :=
  match d with
  | [] => []
  | (k', v') :: rest =>
      if String.eqb k k' then rest else (k', v') :: remove k rest
  end.

(** [list(d)]: the keys in iteration order. *)
Definition keys (d : dict) : list string := map fst d.

Definition values (d : dict) : list Z := map snd d.

End Dict.

(** What is written between the brackets of a subscript [files[...]]: a
    string, or a dictionary. *)
Inductive subscript : Type :=
| KStr (s : string)
| KDict (d : dict).

(** ** Globals and the computation monad *)

Record globals : Type := Globals {
  files : dict;
  exit_flag : bool
}.

(** [files = {}], [exit_flag = False]. *)
Definition initial : globals := Globals [] false.

Definition M (A : Type) : Type := globals -> (exn + A) * globals * trace.

Definition ret {A} (a : A) : M A := fun g => (inr a, g, []).

Definition raise {A} (e : exn) : M A := fun g => (inl e, g, []).

Definition bind {A B} (m : M A) (k : A -> M B) : M B :=
  fun g =>
    match m g with
    | (inl e, g1, t1) => (inl e, g1, t1)
    | (inr a, g1, t1) =>
        match k a g1 with
        | (r, g2, t2) => (r, g2, t1 ++ t2)
        end
    end.

Notation "x <- m ;; k" := (bind m (fun x => k))
  (at level 61, m at next level, right associativity).
Notation "m ;; k" := (bind m (fun _ => k))
  (at level 61, right associativity).

Definition emit (e : event) : M unit := fun g => (inr tt, g, [e]).

Definition logger_info (m : message) : M unit := emit (Log INFO m).
Definition logger_warning (m : message) : M unit := emit (Log WARNING m).
Definition logger_error (m : message) : M unit := emit (Log ERROR m).

Definition get_files : M dict := fun g => (inr (files g), g, []).

Definition put_files (d : dict) : M unit :=
  fun g => (inr tt, Globals d (exit_flag g), []).

Definition set_exit_flag (b : bool) : M unit :=
  fun g => (inr tt, Globals (files g) b, []).

(** [for x in xs: body(x)]; an exception ends the loop. *)
Fixpoint for_each {A} (xs : list A) (body : A -> M unit) : M unit :=
  match xs with
  | [] => ret tt
  | x :: rest => body x ;; for_each rest body
  end.

(** [files[k]]: a dictionary is unhashable and cannot be a key. *)
Definition files_getitem (k : subscript) : M Z :=
  d <- get_files ;;
  match k with
  | KDict _ => raise (TypeError "unhashable type: 'dict'")
  | KStr s =>
      match Dict.get s d with
      | Some v => ret v
      | None => raise (KeyError s)
      end
  end.

(** [files[k] = v]. *)
Definition files_setitem (k : string) (v : Z) : M unit :=
  d <- get_files ;; put_files (Dict.set k v d).

(** [del files[k]]. *)
Definition files_delitem (k : string) : M unit :=
  d <- get_files ;;
  if Dict.mem k d then put_files (Dict.remove k d) else raise (KeyError k).

(** ** The file system and the command line *)

(** What the file system answers during one pass of the loop: a listing or
    an [errno] for [os.listdir], the decoded text of a file or an [errno]
    for [open]. *)
Record filesystem : Type := FileSystem {
  listing : string -> Z + list string;
  content : string -> Z + string
}.

Definition os_listdir (fs : filesystem) (path : string) : M (list string) :=
  match listing fs path with
  | inl errno => raise (OSError errno)
  | inr names => ret names
  end.

(** [open(filename)] followed by reading all its lines. *)
Definition open_lines (fs : filesystem) (filename : string) : M (list string) :=
  match content fs filename with
  | inl errno => raise (OSError errno)
  | inr text => ret (Str.readlines text)
  end.

(** [os.path.join(a, b)] on POSIX. *)
Definition os_path_join (a b : string) : string :=
  if Str.startswith b "/" then b
  else if String.eqb a "" || Str.endswith a "/" then (a ++ b)%string
  else (a ++ "/" ++ b)%string.

(** The parsed arguments ([create_parser]). *)
Record Args : Type := MkArgs {
  path : string;
  magic : string;
  ext : string;
  interval : pyfloat
}.

(** The longest sleep, in whole seconds, that fits the 64-bit count of
    nanoseconds CPython keeps a duration in: (2^63 - 1) / 10^9. *)
Definition sleep_max : Z := 9223372036.

(** [time.sleep(secs)] for an [int]: the seconds are first converted to
    nanoseconds, which fails when they do not fit; then a negative
    duration is refused. *)
Definition time_sleep (secs : Z) : M unit :=
  if (secs <? - sleep_max) || (sleep_max <? secs)
  then raise (OverflowError "timestamp too large to convert to C _PyTime_t")
  else if secs <? 0
       then raise (ValueError "sleep length must be non-negative")
       else emit (Sleep secs).

(** ** [find_magic] *)

(** The [for line_number, line in enumerate(file)] loop; [index] is the next
    value of the counter of [enumerate], [line_number] the current value of
    the loop variable. Returns the value of [line_number] after the loop. *)
Fixpoint find_magic_loop (filename magic_word : string) (starting_line : Z)
    (index line_number : Z) (lines : list string) : M Z :=
  match lines with
  | [] => ret line_number
  | line :: rest =>
      let line_number := index in
      (if (line_number >=? starting_line) && Str.contains magic_word line
       then logger_info (Found filename magic_word (line_number + 1))
       else ret tt) ;;
      find_magic_loop filename magic_word starting_line (index + 1)
        line_number rest
  end.

(** The body of [find_magic] once the file is open. *)
Definition find_magic_lines (filename : string) (starting_line : Z)
    (magic_word : string) (lines : list string) : M Z :=
  let line_number := 0 in
  line_number <- find_magic_loop filename magic_word starting_line 0
                   line_number lines ;;
  ret (line_number + 1).

Definition find_magic (fs : filesystem) (filename : string)
    (starting_line : Z) (magic_word : string) : M Z :=
  lines <- open_lines fs filename ;;
  find_magic_lines filename starting_line magic_word lines.

(** ** [watch_dir] *)

(** The body of the first loop. *)
Definition add_if_new (args : Args) (file : string) : M unit :=
  d <- get_files ;;
  if Str.endswith file (ext args) && negb (Dict.mem file d)
  then files_setitem file 0 ;; logger_info (Added file)
  else ret tt.

Definition add_new_files (args : Args) (file_list : list string) : M unit :=
  for_each file_list (add_if_new args).

(** The body of the second loop. *)
Definition remove_if_missing (file_list : list string) (file : string)
    : M unit :=
  if negb (Str.mem file file_list)
  then logger_info (Removed file) ;; files_delitem file
  else ret tt.

(** The second loop runs over [list(files)], a copy of the keys. *)
Definition remove_missing_files (file_list : list string) : M unit :=
  snapshot <- get_files ;;
  for_each (Dict.keys snapshot) (remove_if_missing file_list).

(** The body of the third loop. The arguments of the call are evaluated
    left to right: the joined path, then [files[files]], then [args.magic];
    only then is [find_magic] called and its result stored. *)
Definition scan_file (fs : filesystem) (args : Args) (file : string)
    : M unit :=
  let filename := os_path_join (path args) file in
  d <- get_files ;;
  starting_line <- files_getitem (KDict d) ;;
  new_line <- find_magic fs filename starting_line (magic args) ;;
  files_setitem file new_line.

Definition scan_files (fs : filesystem) (args : Args) : M unit :=
  d <- get_files ;;
  for_each (Dict.keys d) (scan_file fs args).

Definition watch_dir (fs : filesystem) (args : Args) : M unit :=
  logger_info (Watching (path args) (ext args) (interval args) (magic args)) ;;
  file_list <- os_listdir fs (path args) ;;
  add_new_files args file_list ;;
  remove_missing_files file_list ;;
  scan_files fs args.

(** ** Signals and the loop of [main] *)

(** The two signals [main] connects to [signal_handler]. *)
Inductive signal : Type := SIGINT | SIGTERM.

(** [signames[sig_num]]. *)
Definition signame (sig_num : signal) : string :=
  match sig_num with
  | SIGINT => "SIGINT"
  | SIGTERM => "SIGTERM"
  end.

Definition signal_handler (sig_num : signal) : M unit :=
  logger_warning (Received (signame sig_num)) ;;
  set_exit_flag true.

(** [try: m] with a list of [except] clauses: the first clause whose class
    accepts the exception handles it; an exception raised by a handler is
    not offered to the other clauses. *)
Fixpoint select_clause {A} (clauses : list ((exn -> bool) * (exn -> M A)))
    (e : exn) : option (exn -> M A) :=
  match clauses with
  | [] => None
  | (accepts, handler) :: rest =>
      if accepts e then Some handler else select_clause rest e
  end.

Definition try_except {A} (m : M A)
    (clauses : list ((exn -> bool) * (exn -> M A))) : M A :=
  fun g =>
    match m g with
    | (inl e, g1, t1) =>
        match select_clause clauses e with
        | Some handler =>
            match handler e g1 with
            | (r, g2, t2) => (r, g2, t1 ++ t2)
            end
        | None => (inl e, g1, t1)
        end
    | ok => ok
    end.

(** [error.errno]. *)
Definition errno_of (error : exn) : option Z :=
  match error with
  | OSError errno => Some errno
  | _ => None
  end.

(** [except OSError as error:]. *)
Definition except_OSError (args : Args) (error : exn) : M unit :=
  if match errno_of error with
     | Some errno => errno =? ENOENT
     | None => false
     end
  then logger_error (DirectoryNotFound (path args)) ;; time_sleep 2
  else logger_error (ErrorRecord error).

(** [except Exception as error:]. *)
Definition except_Exception (error : exn) : M unit :=
  logger_error (Unhandled error).

(** The two [except] clauses of the loop, in order. *)
Definition except_clauses (args : Args)
    : list ((exn -> bool) * (exn -> M unit)) :=
  [(is_OSError, except_OSError args); (is_Exception, except_Exception)].

(** The [try] statement of the loop. *)
Definition try_watch_dir (fs : filesystem) (args : Args) : M unit :=
  try_except (watch_dir fs args) (except_clauses args).

(** A value or an exception, as a computation. *)
Definition lift {A} (r : exn + A) : M A :=
  match r with
  | inl e => raise e
  | inr a => ret a
  end.

(** [time.sleep(int(float(args.interval)))]; [float] of a float is that
    float. *)
Definition sleep_interval (args : Args) : M unit :=
  secs <- lift (py_int (interval args)) ;;
  time_sleep secs.

(** One pass of the body of [while not exit_flag:]. *)
Definition loop_body (fs : filesystem) (args : Args) : M unit :=
  try_watch_dir fs args ;;
  sleep_interval args.

(** What the outside world does during one pass, from one test of
    [exit_flag] to the next: the answers of the file system, and the
    signals that arrive, in order.  The handler runs when its signal
    arrives, between two steps of the pass: the number with a signal counts
    the events the pass writes between the arrival before it (or the start
    of the pass) and this one; a signal that arrives after the last event
    of the pass has a larger number. *)
Record tick : Type := Tick {
  tick_fs : filesystem;
  tick_signals : list (nat * signal)
}.

(** The handlers of the signals [arrivals] run on the globals [g] and put
    their records into the events [own] of the pass where they arrive. *)
Fixpoint with_signals (arrivals : list (nat * signal)) (g : globals)
    (own : trace) : globals * trace :=
  match arrivals with
  | [] => (g, own)
  | (k, sig_num) :: rest =>
      match signal_handler sig_num g with
      | (_, g1, written) =>
          match with_signals rest g1 (skipn k own) with
          | (g2, t2) => (g2, firstn k own ++ written ++ t2)
          end
      end
  end.

(** One pass with the signals that arrive during it.  The handler writes
    [exit_flag] and a record and leaves [files] alone; the body of the loop
    neither reads nor writes [exit_flag]; so the body does what it does
    without the signals, whether it returns or raises, and the globals at
    its end are its own with the flag the handlers set. *)
Definition pass (t : tick) (args : Args) : M unit :=
  fun g =>
    match loop_body (tick_fs t) args g with
    | (r, g1, own) =>
        match with_signals (tick_signals t) g1 own with
        | (g2, tr) => (r, g2, tr)
        end
    end.

(** How the loop stands after a finite run: still looping, left through
    the test of [exit_flag], or ended by an exception nobody caught. *)
Inductive status : Type :=
| Looping
| Stopped
| Crashed (e : exn).

(** [while not exit_flag: ...] run against a schedule of passes. *)
Fixpoint main_loop (args : Args) (schedule : list tick) (g : globals)
    : status * globals * trace :=
  if exit_flag g then (Stopped, g, [])
  else
    match schedule with
    | [] => (Looping, g, [])
    | t :: rest =>
        match pass t args g with
        | (inl e, g1, t1) => (Crashed e, g1, t1)
        | (inr _, g1, t1) =>
            match main_loop args rest g1 with
            | (s, g2, t2) => (s, g2, t1 ++ t2)
            end
        end
    end.

(** ** The table of signal names of [signal_handler] *)

(** The value of an attribute of the [signal] module: a number (signal
    numbers, plain or of the enumeration, are hashed and compared as
    integers), or some other object, told apart by its identity. *)
Inductive pyobj : Type :=
| Num (n : Z)
| Obj (id : nat).

Definition pyobj_eqb (a b : pyobj) : bool :=
  match a, b with
  | Num x, Num y => x =? y
  | Obj i, Obj j => Nat.eqb i j
  | _, _ => false
  end.

(** A dictionary from objects to strings, in insertion order. *)
Definition table := list (pyobj * string).

Module Table.

Fixpoint get (k : pyobj) (d : table) : option string :=
  match d with
  | [] => None
  | (k', v) :: rest => if pyobj_eqb k k' then Some v else get k rest
  end.

(** [d[k] = v]: the value of an existing key is replaced. *)
Fixpoint set (k : pyobj) (v : string) (d : table) : table :=
  match d with
  | [] => [(k, v)]
  | (k', v') :: rest =>
      if pyobj_eqb k k' then (k', v) :: rest else (k', v') :: set k v rest
  end.

End Table.

(** The order of [str]: by code point, the shorter of two strings first
    when one begins the other. *)
Definition name_leb (a b : string) : bool :=
  match String_as_OT.compare a b with
  | Gt => false
  | _ => true
  end.

(** [sorted(signal.__dict__.items())]: the items are (name, value) pairs
    and the names of a module are distinct, so the names alone decide the
    order. *)
Fixpoint insert_item (x : string * pyobj) (xs : list (string * pyobj))
    : list (string * pyobj) :=
  match xs with
  | [] => [x]
  | y :: ys =>
      if name_leb (fst x) (fst y) then x :: y :: ys
      else y :: insert_item x ys
  end.

Fixpoint sorted_items (xs : list (string * pyobj)) : list (string * pyobj) :=
  match xs with
  | [] => []
  | x :: rest => insert_item x (sorted_items rest)
  end.

(** [v.startswith('SIG') and not v.startswith('SIG_')]. *)
Definition is_signal_name (v : string) : bool :=
  Str.startswith v "SIG" && negb (Str.startswith v "SIG_").

(** [dict((k, v) for v, k in reversed(sorted(items)) if ...)]: the pairs
    are entered one after the other, a later pair replacing the value of
    an earlier one with the same key. *)
Definition signames (items : list (string * pyobj)) : table :=
  fold_left
    (fun d item => if is_signal_name (fst item)
                   then Table.set (snd item) (fst item) d
                   else d)
    (rev (sorted_items items)) [].

(** ** Reachable states *)

(** The globals and the trace after any number of calls of [watch_dir]
    with the same arguments, starting from the empty dictionary; whether a
    call returns or raises, the loop goes on with the globals it left. *)
Inductive reachable (args : Args) : globals -> trace -> Prop :=
| reach_initial : reachable args initial []
| reach_cycle fs g tr :
    reachable args g tr ->
    reachable args (snd (fst (watch_dir fs args g)))
      (tr ++ snd (watch_dir fs args g)).

Definition is_found (e : event) : bool :=
  match e with
  | Log _ (Found _ _ _) => true
  | _ => false
  end.

Definition is_removed (file : string) (e : event) : bool :=
  match e with
  | Log _ (Removed f) => String.eqb f file
  | _ => false
  end.

(** The [Found] records of a trace, in order. *)
Definition found_records (tr : trace) : list event := filter is_found tr.

(** ** Vocabulary of the statements *)

(** The exception of [files[files]]. *)
Definition unhashable : exn := TypeError "unhashable type: 'dict'".

(** [m] keeps [P] on the globals, whether it returns or raises, and writes
    only events that satisfy [Q]. *)
Definition preserves {A} (P : globals -> Prop) (Q : event -> Prop)
    (m : M A) : Prop :=
  forall g, P g -> P (snd (fst (m g))) /\ Forall Q (snd (m g)).

(** Every entry of the dictionary satisfies [R]. *)
Definition entries_ok (R : string * Z -> Prop) (g : globals) : Prop :=
  Forall R (files g).

Definition not_found (e : event) : Prop := is_found e = false.

(** What [find_magic] logs for [lines] numbered from [index] on: one record
    for each line at or after [starting_line] that contains the word. *)
Fixpoint found_from (filename magic_word : string) (starting_line index : Z)
    (lines : list string) : trace :=
  match lines with
  | [] => []
  | line :: rest =>
      (if (index >=? starting_line) && Str.contains magic_word line
       then [Log INFO (Found filename magic_word (index + 1))]
       else [])
      ++ found_from filename magic_word starting_line (index + 1) rest
  end.

(** The number of lines of a text, as a Python [int]. *)
Definition line_count (text : string) : Z :=
  Z.of_nat (length (Str.readlines text)).

(** A line without the word. *)
Definition lacks (magic_word line : string) : Prop :=
  Str.contains magic_word line = false.

(** The dictionary maps [name] to [v]. *)
Definition holds_entry (name : string) (v : Z) (g : globals) : Prop :=
  Dict.get name (files g) = Some v.

(** The event is not the removal of [name]. *)
Definition not_removed (name : string) (e : event) : Prop :=
  is_removed name e = false.

(** The record the loop of [main] logs for an exception of a cycle. *)
Definition error_record (args : Args) (e : exn) : message :=
  match e with
  | OSError errno =>
      if errno =? ENOENT then DirectoryNotFound (path args) else ErrorRecord e
  | _ => Unhandled e
  end.




(** ** Concrete directories *)

Module Fixture.

(** A file system with one directory, ["dir"], listed as [names] (or failing
    with an errno), and the given files; any other path does not exist. *)
Fixpoint lookup (p : string) (table : list (string * (Z + string)))
    : Z + string :=
  match table with
  | [] => inl ENOENT
  | (q, r) :: rest => if String.eqb p q then r else lookup p rest
  end.

Definition mkfs (names : Z + list string)
    (table : list (string * (Z + string))) : filesystem :=
  FileSystem
    (fun p => if String.eqb p "dir" then names else inl ENOENT)
    (fun p => lookup p table).

Definition args_txt : Args := MkArgs "dir" "hello" ".txt" (Finite 1).
Definition args_log : Args := MkArgs "dir" "hello" ".log" (Finite 1).

(** Three lines, the third with the word. *)
Definition three_lines : string :=
  (Str.ln "one" ++ Str.ln "two" ++ Str.ln "say hello")%string.

(** [dir] holds [a.txt] with three lines. *)
Definition fs_a : filesystem :=
  mkfs (inr ["a.txt"]) [("dir/a.txt", inr three_lines)].

(** [dir] holds [a.txt] and a file with another extension. *)
Definition fs_mixed : filesystem :=
  mkfs (inr ["a.txt"; "notes.log"])
    [("dir/a.txt", inr three_lines); ("dir/notes.log", inr (Str.ln "hello"))].

(** [dir] holds an empty file. *)
Definition fs_empty : filesystem :=
  mkfs (inr ["empty.txt"]) [("dir/empty.txt", inr "")].

(** The empty file after two lines were written, the second with the
    word. *)
Definition fs_filled : filesystem :=
  mkfs (inr ["empty.txt"])
    [("dir/empty.txt", inr (Str.ln "four" ++ Str.ln "hello again")%string)].

(** The empty file after its first line was written. *)
Definition fs_first_line : filesystem :=
  mkfs (inr ["empty.txt"]) [("dir/empty.txt", inr (Str.ln "hello"))].

(** [a.txt] after two more lines were appended, the second with the word. *)
Definition fs_grown : filesystem :=
  mkfs (inr ["a.txt"])
    [("dir/a.txt",
      inr (three_lines ++ Str.ln "four" ++ Str.ln "hello again")%string)].

(** [a.txt] was renamed to [a.bak]. *)
Definition fs_renamed : filesystem :=
  mkfs (inr ["a.bak"]) [("dir/a.bak", inr three_lines)].

(** [dir] holds [a.log] only. *)
Definition fs_log : filesystem :=
  mkfs (inr ["a.log"]) [("dir/a.log", inr (Str.ln "hello"))].

(** [a.txt] is listed but cannot be opened; [b.txt] has one line with the
    word. *)
Definition fs_locked : filesystem :=
  mkfs (inr ["a.txt"; "b.txt"])
    [("dir/a.txt", inl EACCES); ("dir/b.txt", inr (Str.ln "hello"))].


(** [dir] does not exist. *)
Definition fs_missing : filesystem := mkfs (inl ENOENT) [].

(** [dir] is empty. *)
Definition fs_bare : filesystem := mkfs (inr []) [].

(** Some attributes of the [signal] module on Linux. *)
Definition signal_items : list (string * pyobj) :=
  [("SIGTERM", Num 15); ("SIG_DFL", Obj 0); ("SIGIOT", Num 6);
   ("signal", Obj 1); ("SIGINT", Num 2); ("SIG_BLOCK", Num 0);
   ("SIGABRT", Num 6); ("NSIG", Num 65); ("SIGHUP", Num 1)].

(** The globals a first call leaves behind. *)
Definition after (fs : filesystem) (args : Args) : globals :=
  snd (fst (watch_dir fs args initial)).

(** The empty file tracked by a first call: offset 0, as many as it has
    lines. *)
Definition g_empty : globals := after fs_empty args_txt.

(** [a.txt] tracked by a first call. *)
Definition g_a : globals := after fs_a args_txt.

(** [a.log] tracked by a call with extension [.log]. *)
Definition g_log : globals := after fs_log args_log.

(** [a.txt] and [b.txt] tracked by a first call. *)
Definition g_locked : globals := after fs_locked args_txt.

End Fixture.

(** ** Vocabulary of the further properties *)

Definition is_added (file : string) (e : event) : bool :=
  match e with
  | Log _ (Added f) => String.eqb f file
  | _ => false
  end.

(** [sub] occurs in [s]: [s] is some text, [sub], some text. *)
Definition occurs_in (sub s : string) : Prop :=
  exists before after, s = (before ++ sub ++ after)%string.

(** [s] is some text followed by [suffix]. *)
Definition has_suffix (s suffix : string) : Prop :=
  exists front, s = (front ++ suffix)%string.

(** The line number of a [Found] record. *)
Definition record_line (e : event) : Z :=
  match e with
  | Log _ (Found _ _ n) => n
  | _ => 0
  end.

(** What [find_magic] is to report for the line with 0-based index [i]:
    the record carries the 1-based number. *)
Definition reported (filename magic_word : string) (starting_line : Z)
    (lines : list string) (e : event) : Prop :=
  exists i line,
    nth_error lines i = Some line
    /\ starting_line <= Z.of_nat i
    /\ occurs_in magic_word line
    /\ e = Log INFO (Found filename magic_word (Z.of_nat i + 1)).

(** How many events of a trace satisfy [p]. *)
Definition count_records (p : event -> bool) (tr : trace) : nat :=
  length (filter p tr).

(** The dictionary has no key twice, as every Python dictionary. *)
Definition well_formed (g : globals) : Prop := NoDup (Dict.keys (files g)).

(** The exception of [time.sleep(int(float(args.interval)))], if any. *)
Definition sleep_error (args : Args) : option exn :=
  match fst (fst (sleep_interval args initial)) with
  | inl e => Some e
  | inr _ => None
  end.

(** [name] is the first, in the order of strings, of the signal names
    that [items] gives to the number [n]. *)
Definition first_signal_name (items : list (string * pyobj)) (n : Z)
    (name : string) : Prop :=
  In (name, Num n) items
  /\ is_signal_name name = true
  /\ forall other,
       In (other, Num n) items -> is_signal_name other = true ->
       name_leb name other = true.

(** The globals with the flag set to [b]. *)
Definition set_flag (b : bool) (g : globals) : globals :=
  Globals (files g) b.

(** [m] neither reads nor writes [exit_flag]: run with another value of
    the flag it does the same and leaves that value. *)
Definition flag_blind {A} (m : M A) : Prop :=
  forall b g,
    m (set_flag b g) =
    (fst (fst (m g)), set_flag b (snd (fst (m g))), snd (m g)).

(** The file system [fs] with the name [name] gone from every listing. *)
Definition without (name : string) (fs : filesystem) : filesystem :=
  FileSystem
    (fun p =>
       match listing fs p with
       | inl errno => inl errno
       | inr names =>
           inr (filter (fun file => negb (String.eqb file name)) names)
       end)
    (content fs).

(** * Properties *)

(** ** Strings and dictionaries *)

Lemma mem_In (x : string) (xs : list string) :
  Str.mem x xs = true <-> In x xs.
Proof.
  induction xs as [|y ys IH]; simpl.
  - split; [discriminate | tauto].
  - destruct (String.eqb x y) eqn:E.
    + apply String.eqb_eq in E. subst. tauto.
    + apply String.eqb_neq in E. rewrite IH. split.
      * auto.
      * intros [H|H]; [congruence | assumption].
Qed.

Lemma Forall_set (R : string * Z -> Prop) k v d :
  Forall R d -> R (k, v) -> Forall R (Dict.set k v d).
Proof.
  intros Hd Hkv. induction Hd as [|[k' v'] rest Hx Hrest IH]; simpl.
  - constructor; [assumption | constructor].
  - destruct (String.eqb k k') eqn:E.
    + apply String.eqb_eq in E. subst k'. constructor; assumption.
    + constructor; assumption.
Qed.

Lemma Forall_remove (R : string * Z -> Prop) k d :
  Forall R d -> Forall R (Dict.remove k d).
Proof.
  intros Hd. induction Hd as [|[k' v'] rest Hx Hrest IH]; simpl.
  - constructor.
  - destruct (String.eqb k k'); [assumption | constructor; assumption].
Qed.

Lemma get_set_other k k' v d :
  k' <> k -> Dict.get k' (Dict.set k v d) = Dict.get k' d.
Proof.
  intros Hne. induction d as [|[k0 v0] rest IH]; simpl.
  - apply String.eqb_neq in Hne. rewrite Hne. reflexivity.
  - destruct (String.eqb k k0) eqn:E; simpl.
    + apply String.eqb_eq in E. subst k0.
      apply String.eqb_neq in Hne. rewrite Hne. reflexivity.
    + rewrite IH. reflexivity.
Qed.

Lemma get_remove_other k k' d :
  k' <> k -> Dict.get k' (Dict.remove k d) = Dict.get k' d.
Proof.
  intros Hne. induction d as [|[k0 v0] rest IH]; simpl.
  - reflexivity.
  - destruct (String.eqb k k0) eqn:E; simpl.
    + apply String.eqb_eq in E. subst k0.
      apply String.eqb_neq in Hne. rewrite Hne. reflexivity.
    + rewrite IH. reflexivity.
Qed.

Lemma mem_keys k d : Dict.mem k d = true <-> In k (Dict.keys d).
Proof.
  unfold Dict.mem, Dict.keys. induction d as [|[k0 v0] rest IH]; simpl.
  - split; [discriminate | tauto].
  - destruct (String.eqb k k0) eqn:E.
    + apply String.eqb_eq in E. subst. tauto.
    + apply String.eqb_neq in E. rewrite IH. split.
      * auto.
      * intros [H|H]; [congruence | assumption].
Qed.

(** ** A small program logic for [M] *)

Section Preservation.

Variable P : globals -> Prop.
Variable Q : event -> Prop.

Lemma preserves_ret A (a : A) : preserves P Q (ret a).
Proof. intros g Hg. simpl. auto. Qed.

Lemma preserves_raise A (e : exn) : preserves P Q (@raise A e).
Proof. intros g Hg. simpl. auto. Qed.

Lemma preserves_emit e : Q e -> preserves P Q (emit e).
Proof. intros He g Hg. simpl. auto. Qed.

Lemma preserves_get_files : preserves P Q get_files.
Proof. intros g Hg. simpl. auto. Qed.

Lemma preserves_bind A B (m : M A) (k : A -> M B) :
  preserves P Q m -> (forall a, preserves P Q (k a)) ->
  preserves P Q (bind m k).
Proof.
  intros Hm Hk g Hg. unfold bind.
  destruct (Hm g Hg) as [Hg1 Ht1].
  destruct (m g) as [[[e|a] g1] t1]; simpl in *.
  - auto.
  - destruct (Hk a g1 Hg1) as [Hg2 Ht2].
    destruct (k a g1) as [[r g2] t2]; simpl in *.
    split; [assumption | apply Forall_app; auto].
Qed.

Lemma preserves_for_each A (xs : list A) (body : A -> M unit) :
  (forall x, preserves P Q (body x)) -> preserves P Q (for_each xs body).
Proof.
  intros Hbody. induction xs as [|x rest IH]; simpl.
  - apply preserves_ret.
  - apply preserves_bind; auto.
Qed.

Lemma preserves_try_except A (m : M A) clauses :
  preserves P Q m ->
  (forall accepts handler e, In (accepts, handler) clauses ->
     preserves P Q (handler e)) ->
  preserves P Q (try_except m clauses).
Proof.
  intros Hm Hc g Hg. unfold try_except.
  destruct (Hm g Hg) as [Hg1 Ht1].
  destruct (m g) as [[[e|a] g1] t1]; simpl in *; [|auto].
  assert (Hsel : forall h, select_clause clauses e = Some h ->
                           preserves P Q (h e)).
  { clear -Hc. induction clauses as [|[acc hd] rest IH]; simpl; intros h Hh.
    - discriminate.
    - destruct (acc e).
      + inversion Hh; subst. apply (Hc acc h). left. reflexivity.
      + apply IH; [|assumption].
        intros acc' h' e' Hin. apply (Hc acc' h'). right. assumption. }
  destruct (select_clause clauses e) as [h|]; simpl; [|auto].
  destruct (Hsel h eq_refl g1 Hg1) as [Hg2 Ht2].
  destruct (h e g1) as [[r g2] t2]; simpl in *.
  split; [assumption | apply Forall_app; auto].
Qed.

End Preservation.

(** ** The third loop never gets to the scanner *)

Lemma scan_files_empty fs args g :
  files g = [] -> scan_files fs args g = (inr tt, g, []).
Proof.
  intros H. unfold scan_files, bind, get_files. rewrite H. reflexivity.
Qed.

Lemma scan_files_nonempty fs args g :
  files g <> [] -> scan_files fs args g = (inl unhashable, g, []).
Proof.
  intros H. unfold scan_files, bind, get_files. cbn beta iota.
  destruct (files g) as [|[k v] rest] eqn:E; [congruence|].
  reflexivity.
Qed.

Lemma scan_files_globals fs args g : snd (fst (scan_files fs args g)) = g.
Proof.
  destruct (files g) eqn:E.
  - rewrite scan_files_empty; auto.
  - rewrite scan_files_nonempty; [reflexivity | congruence].
Qed.

Lemma scan_files_trace fs args g : snd (scan_files fs args g) = [].
Proof.
  destruct (files g) eqn:E.
  - rewrite scan_files_empty; auto.
  - rewrite scan_files_nonempty; [reflexivity | congruence].
Qed.

(** ** Invariants of [watch_dir] *)

Section EntryInvariant.

Variable args : Args.
Variable R : string * Z -> Prop.

(** [R] holds of every entry a cycle can create. *)
Hypothesis R_new : forall file,
  Str.endswith file (ext args) = true -> R (file, 0).

Lemma files_setitem_new file :
  Str.endswith file (ext args) = true ->
  preserves (entries_ok R) not_found (files_setitem file 0).
Proof.
  intros He g Hg. unfold files_setitem, bind, get_files, put_files. simpl.
  split; [|constructor].
  apply Forall_set; [exact Hg | apply R_new; exact He].
Qed.

Lemma files_delitem_ok file :
  preserves (entries_ok R) not_found (files_delitem file).
Proof.
  intros g Hg. unfold files_delitem, bind, get_files, put_files, raise. simpl.
  destruct (Dict.mem file (files g)); simpl.
  - split; [apply Forall_remove; exact Hg | constructor].
  - split; [exact Hg | constructor].
Qed.

Lemma add_new_files_ok file_list :
  preserves (entries_ok R) not_found (add_new_files args file_list).
Proof.
  unfold add_new_files. apply preserves_for_each. intros file.
  unfold add_if_new.
  apply preserves_bind; [apply preserves_get_files|]. intros d.
  destruct (Str.endswith file (ext args)) eqn:He; simpl.
  - destruct (negb (Dict.mem file d)).
    + apply preserves_bind; [apply files_setitem_new; exact He|].
      intros _. apply preserves_emit. reflexivity.
    + apply preserves_ret.
  - apply preserves_ret.
Qed.

Lemma remove_missing_files_ok file_list :
  preserves (entries_ok R) not_found (remove_missing_files file_list).
Proof.
  unfold remove_missing_files.
  apply preserves_bind; [apply preserves_get_files|]. intros snapshot.
  apply preserves_for_each. intros file. unfold remove_if_missing.
  destruct (negb (Str.mem file file_list)).
  - apply preserves_bind; [apply preserves_emit; reflexivity|].
    intros _. apply files_delitem_ok.
  - apply preserves_ret.
Qed.

Lemma scan_files_ok fs :
  preserves (entries_ok R) not_found (scan_files fs args).
Proof.
  intros g Hg. rewrite scan_files_globals, scan_files_trace. auto.
Qed.

Lemma os_listdir_ok fs p :
  preserves (entries_ok R) not_found (os_listdir fs p).
Proof.
  unfold os_listdir. destruct (listing fs p).
  - apply preserves_raise.
  - apply preserves_ret.
Qed.

Lemma watch_dir_ok fs :
  preserves (entries_ok R) not_found (watch_dir fs args).
Proof.
  unfold watch_dir.
  apply preserves_bind; [apply preserves_emit; reflexivity|]. intros _.
  apply preserves_bind; [apply os_listdir_ok|]. intros file_list.
  apply preserves_bind; [apply add_new_files_ok|]. intros _.
  apply preserves_bind; [apply remove_missing_files_ok|]. intros _.
  apply scan_files_ok.
Qed.

Lemma reachable_ok g tr :
  reachable args g tr -> entries_ok R g /\ Forall not_found tr.
Proof.
  induction 1 as [|fs g tr Hr [Hg Ht]].
  - split; constructor.
  - destruct (watch_dir_ok fs g Hg) as [Hg' Ht'].
    split; [assumption | apply Forall_app; auto].
Qed.

(** The same for the loop of [main]: its handlers, its sleeps and the
    signal handler neither touch [files] nor log a [Found] record. *)

Lemma time_sleep_ok secs :
  preserves (entries_ok R) not_found (time_sleep secs).
Proof.
  unfold time_sleep.
  destruct ((secs <? - sleep_max) || (sleep_max <? secs));
    [apply preserves_raise|].
  destruct (secs <? 0).
  - apply preserves_raise.
  - apply preserves_emit. reflexivity.
Qed.

Lemma try_watch_dir_ok fs :
  preserves (entries_ok R) not_found (try_watch_dir fs args).
Proof.
  unfold try_watch_dir. apply preserves_try_except.
  - apply watch_dir_ok.
  - intros accepts handler e [H|[H|[]]]; inversion H; subst.
    + unfold except_OSError.
      destruct (match errno_of e with
                | Some errno => errno =? ENOENT
                | None => false
                end).
      * apply preserves_bind; [apply preserves_emit; reflexivity|].
        intros _. apply time_sleep_ok.
      * apply preserves_emit. reflexivity.
    + apply preserves_emit. reflexivity.
Qed.

Lemma with_signals_ok arrivals :
  forall g own,
    entries_ok R g -> Forall not_found own ->
    entries_ok R (fst (with_signals arrivals g own))
    /\ Forall not_found (snd (with_signals arrivals g own)).
Proof.
  induction arrivals as [|[k sig_num] rest IH]; intros g own Hg Hown.
  - cbn. auto.
  - cbn [with_signals]. cbn -[with_signals firstn skipn].
    rewrite <- (firstn_skipn k own) in Hown.
    apply Forall_app in Hown. destruct Hown as [Hfirst Hskip].
    destruct (IH (Globals (files g) true) (skipn k own) Hg Hskip)
      as [Hg2 Ht2].
    destruct (with_signals rest (Globals (files g) true) (skipn k own))
      as [g2 t2].
    cbn [fst snd] in *. split; [exact Hg2|].
    apply Forall_app. split; [exact Hfirst|].
    constructor; [reflexivity | exact Ht2].
Qed.

Lemma loop_body_ok fs :
  preserves (entries_ok R) not_found (loop_body fs args).
Proof.
  unfold loop_body. apply preserves_bind; [apply try_watch_dir_ok|].
  intros _. unfold sleep_interval.
  apply preserves_bind; [|intros secs; apply time_sleep_ok].
  unfold lift. destruct (py_int (interval args));
    [apply preserves_raise | apply preserves_ret].
Qed.

Lemma pass_ok t : preserves (entries_ok R) not_found (pass t args).
Proof.
  intros g Hg. unfold pass.
  destruct (loop_body_ok (tick_fs t) g Hg) as [Hg1 Hown].
  destruct (loop_body (tick_fs t) args g) as [[r g1] own].
  cbn [fst snd] in *.
  destruct (with_signals_ok (tick_signals t) g1 own Hg1 Hown) as [Hg2 Ht2].
  destruct (with_signals (tick_signals t) g1 own) as [g2 tr].
  cbn [fst snd] in *. auto.
Qed.

Lemma main_loop_ok schedule :
  forall g,
    entries_ok R g ->
    entries_ok R (snd (fst (main_loop args schedule g)))
    /\ Forall not_found (snd (main_loop args schedule g)).
Proof.
  induction schedule as [|t rest IH]; intros g Hg.
  - cbn. destruct (exit_flag g); cbn; auto.
  - cbn [main_loop]. destruct (exit_flag g); [cbn; auto|].
    destruct (pass_ok t g Hg) as [Hg1 Ht1].
    destruct (pass t args g) as [[[e|u] g1] t1]; cbn [fst snd] in *.
    + auto.
    + destruct (IH g1 Hg1) as [Hg2 Ht2].
      destruct (main_loop args rest g1) as [[s g2] t2]; cbn [fst snd] in *.
      split; [exact Hg2 | apply Forall_app; auto].
Qed.

End EntryInvariant.

Lemma found_records_nil tr :
  Forall not_found tr -> found_records tr = [].
Proof.
  unfold found_records, not_found.
  induction 1 as [|e rest He _ IH]; simpl; [reflexivity|].
  rewrite He. exact IH.
Qed.

Lemma matching_keys_only suffix name d :
  Forall (fun kv => Str.endswith (fst kv) suffix = true) d ->
  Str.endswith name suffix = false ->
  Dict.mem name d = false.
Proof.
  intros Hd Hn. destruct (Dict.mem name d) eqn:E; [|reflexivity].
  apply mem_keys in E. unfold Dict.keys in E. apply in_map_iff in E.
  destruct E as [[k v] [Hk Hin]]. simpl in Hk. subst k.
  rewrite Forall_forall in Hd. specialize (Hd _ Hin). simpl in Hd. congruence.
Qed.

(** Appending text to a file that is empty or ends with a newline appends
    lines to its lines. *)
Lemma readlines_from_app a b :
  Str.endswith a (String Str.newline EmptyString) = true ->
  forall cur,
    Str.readlines_from cur (a ++ b)%string =
    Str.readlines_from cur a ++ Str.readlines b.
Proof.
  induction a as [|c rest IH]; intros Hend cur.
  - discriminate.
  - cbn [String.append Str.readlines_from].
    cbn [Str.endswith] in Hend.
    destruct (String.eqb (String c rest) (String Str.newline EmptyString))
      eqn:E.
    + apply String.eqb_eq in E. inversion E; subst.
      rewrite Ascii.eqb_refl. reflexivity.
    + destruct (Ascii.eqb c Str.newline).
      * cbn [app]. rewrite IH; [reflexivity | exact Hend].
      * apply IH. exact Hend.
Qed.

Lemma readlines_app a b :
  a = EmptyString \/ Str.endswith a (String Str.newline EmptyString) = true ->
  Str.readlines (a ++ b)%string = Str.readlines a ++ Str.readlines b.
Proof.
  intros [->|Hend].
  - reflexivity.
  - apply readlines_from_app. exact Hend.
Qed.

(** ** The watch-list holds matching names only *)

(** C9. Whatever the directory held at each cycle, a file name that does
    not end with the configured extension is never a key of [files]. *)
Theorem unmatched_names_never_tracked args g tr name :
  reachable args g tr ->
  Str.endswith name (ext args) = false ->
  Dict.mem name (files g) = false.
Proof.
  intros Hr Hn.
  apply (matching_keys_only (ext args)); [|exact Hn].
  apply (reachable_ok args
           (fun kv => Str.endswith (fst kv) (ext args) = true)) with (tr := tr).
  - intros file He. exact He.
  - exact Hr.
Qed.

Lemma unmatched_names_never_tracked_witness :
  Dict.mem "notes.log"
    (files (Fixture.after Fixture.fs_mixed Fixture.args_txt)) = false.
Proof.
  apply (unmatched_names_never_tracked Fixture.args_txt _
           ([] ++ snd (watch_dir Fixture.fs_mixed Fixture.args_txt initial))
           "notes.log").
  - apply (reach_cycle Fixture.args_txt Fixture.fs_mixed initial []).
    apply reach_initial.
  - reflexivity.
Defined.

(** ** Offsets stay at zero *)

(** C2. In every state reached by cycles from the empty dictionary, all
    stored offsets are 0 and the trace has no [Found] record; and with a
    non-empty dictionary the third loop raises the [TypeError] of
    [files[files]] at once, leaving globals and trace as they were, whatever
    the files hold. *)
Theorem offsets_zero_and_nothing_found args g tr :
  reachable args g tr ->
  Forall (fun v => v = 0) (Dict.values (files g))
  /\ found_records tr = []
  /\ (forall fs, files g <> [] ->
        scan_files fs args g = (inl unhashable, g, [])).
Proof.
  intros Hr.
  destruct (reachable_ok args (fun kv => snd kv = 0)
              (fun file _ => eq_refl) g tr Hr) as [Hg Ht].
  split; [|split].
  - unfold Dict.values. apply Forall_map. exact Hg.
  - apply found_records_nil. exact Ht.
  - intros fs Hne. apply scan_files_nonempty. exact Hne.
Qed.

Lemma offsets_zero_and_nothing_found_witness :
  let g := Fixture.after Fixture.fs_a Fixture.args_txt in
  files g = [("a.txt", 0)]
  /\ Forall (fun v => v = 0) (Dict.values (files g))
  /\ scan_files Fixture.fs_a Fixture.args_txt g = (inl unhashable, g, []).
Proof.
  intros g.
  destruct (offsets_zero_and_nothing_found Fixture.args_txt g
              ([] ++ snd (watch_dir Fixture.fs_a Fixture.args_txt initial))
              (reach_cycle Fixture.args_txt Fixture.fs_a initial []
                 (reach_initial _))) as [Hv [_ Hs]].
  split; [reflexivity | split; [exact Hv|]].
  apply Hs. discriminate.
Defined.

(** C1. With an empty dictionary and [a.txt] holding three lines, the third
    with the word, one call of [watch_dir] adds [a.txt] and then raises
    [TypeError]: the offset stays 0 and nothing is found. Called with the
    stored offset, [find_magic] itself returns 3 and reports line 3. *)
Theorem first_cycle_on_three_lines :
  watch_dir Fixture.fs_a Fixture.args_txt initial =
    (inl unhashable, Globals [("a.txt", 0)] false,
     [Log INFO (Watching "dir" ".txt" (Finite 1) "hello");
      Log INFO (Added "a.txt")])
  /\ find_magic Fixture.fs_a "dir/a.txt" 0 "hello" initial =
       (inr 3, initial, [Log INFO (Found "dir/a.txt" "hello" 3)]).
Proof. split; reflexivity. Qed.

(** ** What [find_magic] returns and reports *)

Lemma find_magic_loop_spec filename magic_word starting_line lines :
  forall index line_number g,
    find_magic_loop filename magic_word starting_line index line_number
      lines g =
    (inr (match lines with
          | [] => line_number
          | _ :: _ => index + Z.of_nat (length lines) - 1
          end), g,
     found_from filename magic_word starting_line index lines).
Proof.
  induction lines as [|line rest IH]; intros index line_number g.
  - reflexivity.
  - cbn [find_magic_loop found_from]. unfold bind at 1.
    assert (Hstep :
      (if (index >=? starting_line) && Str.contains magic_word line
       then logger_info (Found filename magic_word (index + 1))
       else ret tt) g =
      (inr tt, g,
       if (index >=? starting_line) && Str.contains magic_word line
       then [Log INFO (Found filename magic_word (index + 1))]
       else [])).
    { destruct ((index >=? starting_line) && Str.contains magic_word line);
        reflexivity. }
    rewrite Hstep, IH. f_equal. f_equal. f_equal.
    destruct rest as [|line' rest']; cbn [length]; lia.
Qed.

Lemma find_magic_lines_spec filename starting_line magic_word lines g :
  find_magic_lines filename starting_line magic_word lines g =
    (inr (match lines with
          | [] => 1
          | _ :: _ => Z.of_nat (length lines)
          end), g,
     found_from filename magic_word starting_line 0 lines).
Proof.
  unfold find_magic_lines, bind. rewrite find_magic_loop_spec.
  cbn [ret]. rewrite app_nil_r. f_equal. f_equal. f_equal.
  destruct lines; cbn [length]; lia.
Qed.

Lemma find_magic_spec fs filename starting_line magic_word text g :
  content fs filename = inr text ->
  find_magic fs filename starting_line magic_word g =
    (inr (match Str.readlines text with
          | [] => 1
          | _ :: _ => line_count text
          end), g,
     found_from filename magic_word starting_line 0 (Str.readlines text)).
Proof.
  intros Hc. unfold find_magic, open_lines, bind. rewrite Hc. cbn [ret].
  rewrite find_magic_lines_spec. reflexivity.
Qed.

Lemma find_magic_unopened fs filename starting_line magic_word errno g :
  content fs filename = inl errno ->
  find_magic fs filename starting_line magic_word g =
    (inl (OSError errno), g, []).
Proof.
  intros Hc. unfold find_magic, open_lines, bind. rewrite Hc. reflexivity.
Qed.

Lemma found_from_app filename magic_word starting_line xs ys :
  forall index,
    found_from filename magic_word starting_line index (xs ++ ys) =
    found_from filename magic_word starting_line index xs
    ++ found_from filename magic_word starting_line
         (index + Z.of_nat (length xs)) ys.
Proof.
  induction xs as [|x rest IH]; intros index.
  - cbn [app found_from length]. f_equal. cbn. lia.
  - cbn [app found_from length]. rewrite IH, <- app_assoc.
    do 3 f_equal. lia.
Qed.

Lemma found_from_skipped filename magic_word starting_line xs :
  forall index,
    index + Z.of_nat (length xs) <= starting_line ->
    found_from filename magic_word starting_line index xs = [].
Proof.
  induction xs as [|x rest IH]; intros index Hle.
  - reflexivity.
  - cbn [found_from length] in *.
    assert (Hlt : (index >=? starting_line) = false) by lia.
    rewrite Hlt. cbn [andb app]. apply IH. lia.
Qed.

Lemma found_from_lacking filename magic_word starting_line xs :
  Forall (lacks magic_word) xs ->
  forall index, found_from filename magic_word starting_line index xs = [].
Proof.
  induction 1 as [|x rest Hx _ IH]; intros index.
  - reflexivity.
  - cbn [found_from]. unfold lacks in Hx. rewrite Hx, andb_false_r.
    cbn [app]. apply IH.
Qed.

(** C3. Once the file is open, whatever the starting line, [find_magic]
    returns the number of lines when there is at least one, and 1, not 0,
    when there is none.  On the empty file of the fixture it returns 1 and
    logs nothing; with that offset stored, a first line written later is
    skipped, although it contains the word. *)
Theorem find_magic_on_empty_file_returns_one :
  (forall filename starting_line magic_word lines g,
     fst (fst (find_magic_lines filename starting_line magic_word lines g)) =
       inr (match lines with
            | [] => 1
            | _ :: _ => Z.of_nat (length lines)
            end))
  /\ (forall starting_line,
        find_magic Fixture.fs_empty "dir/empty.txt" starting_line "hello"
          initial = (inr 1, initial, []))
  /\ find_magic Fixture.fs_first_line "dir/empty.txt" 1 "hello" initial =
       (inr 1, initial, []).
Proof.
  split; [|split].
  - intros filename starting_line magic_word lines g.
    rewrite find_magic_lines_spec. reflexivity.
  - intros starting_line.
    rewrite (find_magic_spec Fixture.fs_empty "dir/empty.txt" starting_line
               "hello" "" initial eq_refl).
    reflexivity.
  - reflexivity.
Qed.

(** What a direct call of [find_magic] does after lines were appended.  A
    file had [old] lines and [offset] is their number.  Lines are appended,
    exactly one of which, [line], contains the word, with [before] in front
    of it and [after] behind.  Scanning from [offset] logs exactly one
    [Found] record, for line number (prior count + position of [line] among
    the new lines, counted from 1), and returns [offset] plus the number of
    new lines. *)
Lemma append_then_rescan fs filename magic_word text old before line after
    offset g :
  content fs filename = inr text ->
  Str.readlines text = old ++ before ++ line :: after ->
  offset = Z.of_nat (length old) ->
  Forall (lacks magic_word) before ->
  Str.contains magic_word line = true ->
  Forall (lacks magic_word) after ->
  find_magic fs filename offset magic_word g =
    (inr (offset + Z.of_nat (length (before ++ line :: after))), g,
     [Log INFO (Found filename magic_word
                  (Z.of_nat (length old) + (Z.of_nat (length before) + 1)))]).
Proof.
  intros Hc Hlines Hoff Hb Hl Ha.
  rewrite (find_magic_spec _ _ _ _ _ _ Hc). unfold line_count.
  rewrite Hlines. f_equal; [f_equal|].
  - f_equal. destruct old as [|o old'].
    + cbn [app length] in *. subst offset.
      destruct before; cbn [app length]; lia.
    + cbn [app]. rewrite Hoff.
      change (o :: old' ++ before ++ line :: after)
        with ((o :: old') ++ before ++ line :: after).
      rewrite length_app. lia.
  - rewrite found_from_app.
    rewrite (found_from_skipped _ _ _ old) by lia.
    rewrite found_from_app.
    rewrite (found_from_lacking _ _ _ _ Hb).
    cbn [app found_from].
    rewrite (found_from_lacking _ _ _ _ Ha), Hl, app_nil_r.
    assert (Hge : (0 + Z.of_nat (length old) + Z.of_nat (length before)
                   >=? offset) = true).
    { apply Z.geb_le. lia. }
    rewrite Hge. cbn [andb]. do 3 f_equal. lia.
Qed.

Lemma append_then_rescan_witness :
  find_magic Fixture.fs_grown "dir/a.txt" 3 "hello" initial =
    (inr 5, initial, [Log INFO (Found "dir/a.txt" "hello" 5)]).
Proof.
  apply (append_then_rescan Fixture.fs_grown "dir/a.txt" "hello"
           (Fixture.three_lines ++ Str.ln "four" ++ Str.ln "hello again")%string
           (Str.readlines Fixture.three_lines)
           [Str.ln "four"] (Str.ln "hello again") [] 3 initial).
  - reflexivity.
  - reflexivity.
  - reflexivity.
  - repeat constructor.
  - reflexivity.
  - constructor.
Defined.

(** C4. An empty file is tracked with offset 0, the number of its lines.
    Two lines are appended, the second with the word.  The next cycle raises
    the [TypeError] of [files[files]] before it scans: it logs no [Found]
    record and leaves the offset at 0.  Called with the stored offset,
    [find_magic] itself logs the one record, for line 0 + 2, and returns
    0 + 2. *)
Theorem appended_lines_not_scanned_by_the_cycle :
  files Fixture.g_empty = [("empty.txt", 0)]
  /\ content Fixture.fs_empty "dir/empty.txt" = inr ""
  /\ line_count "" = 0
  /\ watch_dir Fixture.fs_filled Fixture.args_txt Fixture.g_empty =
       (inl unhashable, Fixture.g_empty,
        [Log INFO (Watching "dir" ".txt" (Finite 1) "hello")])
  /\ find_magic Fixture.fs_filled "dir/empty.txt" 0 "hello" Fixture.g_empty
     = (inr 2, Fixture.g_empty,
        [Log INFO (Found "dir/empty.txt" "hello" 2)]).
Proof. repeat split; reflexivity. Qed.

(** ** Keys that are listed, keys that are not *)

Lemma remove_missing_files_unfold file_list g :
  remove_missing_files file_list g =
  for_each (Dict.keys (files g)) (remove_if_missing file_list) g.
Proof.
  unfold remove_missing_files, bind, get_files.
  destruct (for_each (Dict.keys (files g)) (remove_if_missing file_list) g)
    as [[r g2] t2].
  reflexivity.
Qed.

Lemma preserves_bind_ret P Q A B (a : A) (k : A -> M B) :
  preserves P Q (k a) -> preserves P Q (bind (ret a) k).
Proof.
  intros Hk g Hg. unfold bind, ret.
  destruct (Hk g Hg) as [Hg2 Ht2].
  destruct (k a g) as [[r g2] t2]. simpl in *. auto.
Qed.

Lemma not_removed_trace name tr :
  Forall (not_removed name) tr -> existsb (is_removed name) tr = false.
Proof.
  induction 1 as [|e rest He _ IH]; simpl; [reflexivity|].
  unfold not_removed in He. rewrite He. exact IH.
Qed.

Lemma get_mem name v d : Dict.get name d = Some v -> Dict.mem name d = true.
Proof. unfold Dict.mem. intros H. rewrite H. reflexivity. Qed.

Section ListedKey.

Variable args : Args.
Variable name : string.
Variable v : Z.

Lemma add_new_files_keeps file_list :
  preserves (holds_entry name v) (not_removed name)
    (add_new_files args file_list).
Proof.
  unfold add_new_files. apply preserves_for_each. intros file g Hg.
  unfold holds_entry in *.
  unfold add_if_new, bind, get_files, files_setitem, put_files, logger_info,
    emit, ret.
  cbn beta iota.
  destruct (Str.endswith file (ext args) && negb (Dict.mem file (files g)))
    eqn:E; cbn.
  - split; [|repeat constructor].
    apply andb_true_iff in E. destruct E as [_ E].
    apply negb_true_iff in E.
    rewrite get_set_other; [exact Hg|].
    intros Heq. subst file. rewrite (get_mem _ _ _ Hg) in E. discriminate.
  - split; [exact Hg | constructor].
Qed.

Lemma files_delitem_keeps file :
  file <> name ->
  preserves (holds_entry name v) (not_removed name) (files_delitem file).
Proof.
  intros Hne g Hg. unfold holds_entry in *.
  unfold files_delitem, bind, get_files, put_files, raise. cbn beta iota.
  destruct (Dict.mem file (files g)); cbn.
  - split; [|constructor].
    rewrite get_remove_other; [exact Hg | congruence].
  - split; [exact Hg | constructor].
Qed.

Lemma remove_if_missing_keeps file_list file :
  Str.mem name file_list = true ->
  preserves (holds_entry name v) (not_removed name)
    (remove_if_missing file_list file).
Proof.
  intros Hin. unfold remove_if_missing.
  destruct (Str.mem file file_list) eqn:E; cbn [negb].
  - apply preserves_ret.
  - assert (Hne : file <> name) by (intros ->; congruence).
    apply preserves_bind.
    + apply preserves_emit. unfold not_removed. cbn.
      apply String.eqb_neq. exact Hne.
    + intros _. apply files_delitem_keeps. exact Hne.
Qed.

Lemma remove_missing_files_keeps file_list :
  Str.mem name file_list = true ->
  preserves (holds_entry name v) (not_removed name)
    (remove_missing_files file_list).
Proof.
  intros Hin g Hg. rewrite remove_missing_files_unfold.
  apply preserves_for_each; [|exact Hg].
  intros file. apply remove_if_missing_keeps. exact Hin.
Qed.

Lemma watch_dir_keeps fs file_list :
  listing fs (path args) = inr file_list ->
  Str.mem name file_list = true ->
  preserves (holds_entry name v) (not_removed name) (watch_dir fs args).
Proof.
  intros Hl Hin. unfold watch_dir.
  apply preserves_bind; [apply preserves_emit; reflexivity|]. intros _.
  unfold os_listdir. rewrite Hl. apply preserves_bind_ret.
  apply preserves_bind; [apply add_new_files_keeps|]. intros _.
  apply preserves_bind; [apply remove_missing_files_keeps; exact Hin|].
  intros _ g Hg. rewrite scan_files_globals, scan_files_trace. auto.
Qed.

End ListedKey.

Lemma listed_key_kept fs args file_list name v g :
  listing fs (path args) = inr file_list ->
  Str.mem name file_list = true ->
  Dict.get name (files g) = Some v ->
  Dict.get name (files (snd (fst (watch_dir fs args g)))) = Some v
  /\ existsb (is_removed name) (snd (watch_dir fs args g)) = false.
Proof.
  intros Hl Hin Hg.
  destruct (watch_dir_keeps args name v fs file_list Hl Hin g Hg) as [H1 H2].
  split; [exact H1 | apply not_removed_trace; exact H2].
Qed.

(** Keys that are not listed are dropped, each once. *)

Lemma keys_set_new k v d :
  Dict.mem k d = false -> Dict.keys (Dict.set k v d) = Dict.keys d ++ [k].
Proof.
  unfold Dict.mem, Dict.keys. induction d as [|[k0 v0] rest IH]; simpl.
  - reflexivity.
  - destruct (String.eqb k k0); [discriminate|].
    intros H. simpl. rewrite IH; [reflexivity | exact H].
Qed.

Lemma keys_remove_incl k k' d :
  In k' (Dict.keys (Dict.remove k d)) -> In k' (Dict.keys d).
Proof.
  unfold Dict.keys. induction d as [|[k0 v0] rest IH]; simpl.
  - tauto.
  - destruct (String.eqb k k0); simpl; tauto.
Qed.

Lemma NoDup_keys_remove k d :
  NoDup (Dict.keys d) -> NoDup (Dict.keys (Dict.remove k d)).
Proof.
  induction d as [|[k0 v0] rest IH]; simpl; intros Hnd.
  - exact Hnd.
  - inversion Hnd as [|? ? Hnotin Hrest]; subst.
    destruct (String.eqb k k0); simpl.
    + exact Hrest.
    + constructor; [|apply IH; exact Hrest].
      intros Hin. apply Hnotin. apply (keys_remove_incl k). exact Hin.
Qed.

Lemma mem_remove_same k d :
  NoDup (Dict.keys d) -> Dict.mem k (Dict.remove k d) = false.
Proof.
  intros Hnd. destruct (Dict.mem k (Dict.remove k d)) eqn:E; [|reflexivity].
  exfalso. apply mem_keys in E. revert Hnd E.
  induction d as [|[k0 v0] rest IH]; simpl; intros Hnd E.
  - exact E.
  - inversion Hnd as [|? ? Hnotin Hrest]; subst.
    destruct (String.eqb k k0) eqn:Ek; simpl in E.
    + apply String.eqb_eq in Ek. subst k0. exact (Hnotin E).
    + destruct E as [E|E].
      * apply String.eqb_neq in Ek. congruence.
      * exact (IH Hrest E).
Qed.

Lemma mem_remove_other k k' d :
  k' <> k -> Dict.mem k' (Dict.remove k d) = Dict.mem k' d.
Proof.
  intros Hne. unfold Dict.mem. rewrite get_remove_other; auto.
Qed.

Lemma mem_set_other k k' v d :
  k' <> k -> Dict.mem k' (Dict.set k v d) = Dict.mem k' d.
Proof.
  intros Hne. unfold Dict.mem. rewrite get_set_other; auto.
Qed.

Lemma bind_run A B (m : M A) (k : A -> M B) g a g1 t1 :
  m g = (inr a, g1, t1) ->
  bind m k g = (fst (fst (k a g1)), snd (fst (k a g1)), t1 ++ snd (k a g1)).
Proof.
  intros Hm. unfold bind. rewrite Hm.
  destruct (k a g1) as [[r g2] t2]. reflexivity.
Qed.

Lemma add_if_new_run args file g :
  NoDup (Dict.keys (files g)) ->
  exists d t,
    add_if_new args file g = (inr tt, Globals d (exit_flag g), t)
    /\ NoDup (Dict.keys d)
    /\ forall k, Dict.mem k (files g) = true -> Dict.mem k d = true.
Proof.
  intros Hnd.
  unfold add_if_new, bind, get_files, files_setitem, put_files,
    logger_info, emit, ret. cbn beta iota.
  destruct (Str.endswith file (ext args)
            && negb (Dict.mem file (files g))) eqn:E; cbn.
  - apply andb_true_iff in E. destruct E as [_ E].
    apply negb_true_iff in E.
    eexists. eexists. split; [reflexivity|]. split.
    + rewrite (keys_set_new _ _ _ E).
      apply NoDup_app; [exact Hnd | repeat constructor; intros [] |].
      intros a Ha [Hb|[]]. subst a.
      apply mem_keys in Ha. congruence.
    + intros k Hk. rewrite mem_set_other; [exact Hk|].
      intros ->. congruence.
  - exists (files g), []. destruct g. cbn. auto.
Qed.

(** The first loop returns, keeps the keys distinct and keeps every key. *)
Lemma add_new_files_run args file_list :
  forall g,
    NoDup (Dict.keys (files g)) ->
    fst (fst (add_new_files args file_list g)) = inr tt
    /\ NoDup (Dict.keys (files (snd (fst (add_new_files args file_list g)))))
    /\ (forall k, Dict.mem k (files g) = true ->
          Dict.mem k (files (snd (fst (add_new_files args file_list g))))
          = true).
Proof.
  unfold add_new_files.
  induction file_list as [|file rest IH]; intros g Hnd.
  - cbn. auto.
  - cbn [for_each].
    destruct (add_if_new_run args file g Hnd) as [d [t [Hrun [Hnd' Hkeep]]]].
    rewrite (bind_run _ _ _ _ _ _ _ _ Hrun). cbn [fst snd].
    destruct (IH (Globals d (exit_flag g)) Hnd') as [Hr [Hnd2 Hk2]].
    split; [exact Hr | split; [exact Hnd2|]].
    intros k Hk. apply Hk2. apply Hkeep. exact Hk.
Qed.

Lemma remove_if_missing_listed file_list k g :
  Str.mem k file_list = true ->
  remove_if_missing file_list k g = (inr tt, g, []).
Proof. intros H. unfold remove_if_missing. rewrite H. reflexivity. Qed.

Lemma remove_if_missing_unlisted file_list k g :
  Str.mem k file_list = false ->
  Dict.mem k (files g) = true ->
  remove_if_missing file_list k g =
    (inr tt, Globals (Dict.remove k (files g)) (exit_flag g),
     [Log INFO (Removed k)]).
Proof.
  intros H Hk. unfold remove_if_missing. rewrite H. cbn [negb].
  unfold bind, logger_info, emit, files_delitem, get_files, put_files.
  cbn -[Dict.mem Dict.remove]. rewrite Hk. reflexivity.
Qed.

(** The second loop over the keys [ks] still to visit: it returns; a key
    that was absent stays absent; a key of [ks] that is not listed is
    removed and its removal logged. *)
Lemma remove_loop_run file_list ks :
  forall g,
    NoDup ks ->
    NoDup (Dict.keys (files g)) ->
    (forall k, In k ks -> Dict.mem k (files g) = true) ->
    fst (fst (for_each ks (remove_if_missing file_list) g)) = inr tt
    /\ (forall k, Dict.mem k (files g) = false ->
          Dict.mem k
            (files (snd (fst (for_each ks (remove_if_missing file_list) g))))
          = false)
    /\ (forall name, In name ks -> Str.mem name file_list = false ->
          Dict.mem name
            (files (snd (fst (for_each ks (remove_if_missing file_list) g))))
          = false
          /\ existsb (is_removed name)
               (snd (for_each ks (remove_if_missing file_list) g)) = true).
Proof.
  induction ks as [|k rest IH]; intros g Hks Hnd Hin.
  - cbn. split; [reflexivity | split; [auto|]]. intros name [].
  - inversion Hks as [|? ? Hnotin Hrest]; subst.
    cbn [for_each].
    destruct (Str.mem k file_list) eqn:Ek.
    + (* listed: nothing happens at [k] *)
      rewrite (bind_run _ _ _ _ _ _ _ _
                 (remove_if_missing_listed file_list k g Ek)).
      cbn [fst snd app].
      destruct (IH g Hrest Hnd (fun k' H => Hin k' (or_intror H)))
        as [Hr [Habs Hrem]].
      split; [exact Hr | split; [exact Habs|]].
      intros name [Heq|Hn] Hmiss.
      * subst name. congruence.
      * apply Hrem; assumption.
    + (* not listed: logged and deleted *)
      assert (Hk : Dict.mem k (files g) = true) by (apply Hin; left; auto).
      rewrite (bind_run _ _ _ _ _ _ _ _
                 (remove_if_missing_unlisted file_list k g Ek Hk)).
      cbn [fst snd].
      set (g1 := Globals (Dict.remove k (files g)) (exit_flag g)).
      assert (Hnd1 : NoDup (Dict.keys (files g1)))
        by (apply NoDup_keys_remove; exact Hnd).
      assert (Hin1 : forall k', In k' rest -> Dict.mem k' (files g1) = true).
      { intros k' Hk'. cbn. rewrite mem_remove_other.
        - apply Hin. right. exact Hk'.
        - intros ->. exact (Hnotin Hk'). }
      destruct (IH g1 Hrest Hnd1 Hin1) as [Hr [Habs Hrem]].
      split; [exact Hr | split].
      * intros k' Hk'. apply Habs.
        destruct (String.eqb k' k) eqn:E.
        -- apply String.eqb_eq in E. subst k'. congruence.
        -- apply String.eqb_neq in E. cbn.
           rewrite mem_remove_other; assumption.
      * intros name [Heq|Hn] Hmiss.
        -- subst name. split.
           ++ apply Habs. apply mem_remove_same. exact Hnd.
           ++ cbn. rewrite String.eqb_refl. reflexivity.
        -- destruct (Hrem name Hn Hmiss) as [H1 H2].
           split; [exact H1|]. rewrite existsb_app, H2. apply orb_true_r.
Qed.

(** The globals and the trace of a call whose listing succeeds, in terms
    of its first two loops. *)
Lemma watch_dir_run fs args file_list g :
  listing fs (path args) = inr file_list ->
  NoDup (Dict.keys (files g)) ->
  let g1 := snd (fst (add_new_files args file_list g)) in
  let r2 := for_each (Dict.keys (files g1)) (remove_if_missing file_list) g1 in
  snd (fst (watch_dir fs args g)) = snd (fst r2)
  /\ snd (watch_dir fs args g) =
       Log INFO (Watching (path args) (ext args) (interval args) (magic args))
       :: snd (add_new_files args file_list g) ++ snd r2.
Proof.
  intros Hl Hnd g1 r2.
  destruct (add_new_files_run args file_list g Hnd) as [Hr1 [Hnd1 _]].
  fold g1 in Hnd1.
  destruct (remove_loop_run file_list (Dict.keys (files g1)) g1 Hnd1 Hnd1
              (fun k H => proj2 (mem_keys k (files g1)) H)) as [Hr2 _].
  fold r2 in Hr2.
  unfold watch_dir.
  rewrite (bind_run _ _ _ _ g tt g [Log INFO (Watching (path args) (ext args)
             (interval args) (magic args))] eq_refl).
  assert (Hls : os_listdir fs (path args) g = (inr file_list, g, [])).
  { unfold os_listdir. rewrite Hl. reflexivity. }
  rewrite (bind_run _ _ _ _ _ _ _ _ Hls).
  assert (Hadd : add_new_files args file_list g =
                 (inr tt, g1, snd (add_new_files args file_list g))).
  { subst g1. destruct (add_new_files args file_list g) as [[r g'] t].
    cbn in *. subst r. reflexivity. }
  rewrite (bind_run _ _ _ _ _ _ _ _ Hadd).
  assert (Hrem : remove_missing_files file_list g1 = (inr tt, snd (fst r2),
                                                      snd r2)).
  { rewrite remove_missing_files_unfold. fold r2.
    destruct r2 as [[r g'] t]. cbn in *. subst r. reflexivity. }
  rewrite (bind_run _ _ _ _ _ _ _ _ Hrem).
  cbn [fst snd]. rewrite scan_files_globals, scan_files_trace.
  cbn [app]. rewrite app_nil_r. split; reflexivity.
Qed.

Lemma unlisted_key_dropped fs args file_list name g :
  listing fs (path args) = inr file_list ->
  NoDup (Dict.keys (files g)) ->
  Dict.mem name (files g) = true ->
  Str.mem name file_list = false ->
  Dict.mem name (files (snd (fst (watch_dir fs args g)))) = false
  /\ existsb (is_removed name) (snd (watch_dir fs args g)) = true.
Proof.
  intros Hl Hnd Hmem Hmiss.
  destruct (watch_dir_run fs args file_list g Hl Hnd) as [Hg Ht].
  rewrite Hg, Ht. clear Hg Ht.
  destruct (add_new_files_run args file_list g Hnd) as [_ [Hnd1 Hkeep]].
  set (g1 := snd (fst (add_new_files args file_list g))) in *.
  destruct (remove_loop_run file_list (Dict.keys (files g1)) g1 Hnd1 Hnd1
              (fun k H => proj2 (mem_keys k (files g1)) H))
    as [_ [_ Hrem]].
  destruct (Hrem name (proj1 (mem_keys name (files g1)) (Hkeep name Hmem))
              Hmiss) as [Hgone Hlog].
  split; [exact Hgone|].
  cbn [existsb is_removed]. rewrite existsb_app, Hlog. apply orb_true_r.
Qed.

(** ** A tracked file that cannot be opened *)

(** C6. [a.txt] and [b.txt] are tracked, [a.txt] cannot be opened,
    [b.txt] has one line, with the word.  The cycle raises the [TypeError]
    of [files[files]] before it opens any file: [b.txt] is not scanned, its
    offset stays 0 and no [Found] record is logged.  A scan of [b.txt]
    would return 1 and log the record; a scan of [a.txt] would raise the
    [OSError] of [open]. *)
Theorem unopenable_file_other_files_not_scanned :
  files Fixture.g_locked = [("a.txt", 0); ("b.txt", 0)]
  /\ find_magic Fixture.fs_locked "dir/a.txt" 0 "hello" Fixture.g_locked =
       (inl (OSError EACCES), Fixture.g_locked, [])
  /\ find_magic Fixture.fs_locked "dir/b.txt" 0 "hello" Fixture.g_locked =
       (inr 1, Fixture.g_locked, [Log INFO (Found "dir/b.txt" "hello" 1)])
  /\ watch_dir Fixture.fs_locked Fixture.args_txt Fixture.g_locked =
       (inl unhashable, Fixture.g_locked,
        [Log INFO (Watching "dir" ".txt" (Finite 1) "hello")]).
Proof. repeat split; reflexivity. Qed.

(** ** The loop of [main] *)

Lemma watching_then_listing_fails fs args errno g :
  listing fs (path args) = inl errno ->
  watch_dir fs args g =
    (inl (OSError errno), g,
     [Log INFO (Watching (path args) (ext args) (interval args)
                  (magic args))]).
Proof.
  intros Hl. unfold watch_dir, os_listdir, bind, logger_info, emit.
  rewrite Hl. reflexivity.
Qed.

Lemma try_except_caught A (m : M A) clauses handler e g g1 t1 :
  m g = (inl e, g1, t1) ->
  select_clause clauses e = Some handler ->
  try_except m clauses g =
    (fst (fst (handler e g1)), snd (fst (handler e g1)),
     t1 ++ snd (handler e g1)).
Proof.
  intros Hm Hs. unfold try_except. rewrite Hm, Hs.
  destruct (handler e g1) as [[r g2] t2]. reflexivity.
Qed.

Lemma except_OSError_ENOENT args g :
  except_OSError args (OSError ENOENT) g =
    (inr tt, g, [Log ERROR (DirectoryNotFound (path args)); Sleep 2]).
Proof. reflexivity. Qed.

(** C7. When the watched path does not exist at listing time, [watch_dir]
    raises the [OSError] with errno ENOENT and leaves the globals as they
    were; the [try] statement logs "directory not found" for the watched
    path and sleeps 2 seconds, whatever the configured interval; the sleep
    of the interval comes after that. *)
Theorem missing_directory_cycle fs args g :
  listing fs (path args) = inl ENOENT ->
  watch_dir fs args g =
    (inl (OSError ENOENT), g,
     [Log INFO (Watching (path args) (ext args) (interval args)
                  (magic args))])
  /\ try_watch_dir fs args g =
       (inr tt, g,
        [Log INFO (Watching (path args) (ext args) (interval args)
                     (magic args));
         Log ERROR (DirectoryNotFound (path args));
         Sleep 2])
  /\ loop_body fs args g =
       (fst (fst (sleep_interval args g)), snd (fst (sleep_interval args g)),
        [Log INFO (Watching (path args) (ext args) (interval args)
                     (magic args));
         Log ERROR (DirectoryNotFound (path args));
         Sleep 2] ++ snd (sleep_interval args g)).
Proof.
  intros Hl.
  pose proof (watching_then_listing_fails fs args ENOENT g Hl) as Hw.
  assert (Ht : try_watch_dir fs args g =
    (inr tt, g,
     [Log INFO (Watching (path args) (ext args) (interval args)
                  (magic args));
      Log ERROR (DirectoryNotFound (path args));
      Sleep 2])).
  { unfold try_watch_dir.
    rewrite (try_except_caught _ (watch_dir fs args) (except_clauses args)
               (except_OSError args) _ _ _ _ Hw eq_refl).
    rewrite except_OSError_ENOENT. reflexivity. }
  split; [exact Hw | split; [exact Ht|]].
  unfold loop_body. rewrite (bind_run _ _ _ _ _ _ _ _ Ht). reflexivity.
Qed.

Lemma missing_directory_cycle_witness :
  try_watch_dir Fixture.fs_missing Fixture.args_txt Fixture.g_log =
    (inr tt, Fixture.g_log,
     [Log INFO (Watching "dir" ".txt" (Finite 1) "hello");
      Log ERROR (DirectoryNotFound "dir");
      Sleep 2]).
Proof.
  destruct (missing_directory_cycle Fixture.fs_missing Fixture.args_txt
              Fixture.g_log eq_refl) as [_ [Ht _]].
  exact Ht.
Defined.

(** What the [try] statement does with each exception. *)
Lemma try_watch_dir_catches fs args g :
  fst (fst (try_watch_dir fs args g)) = inr tt
  /\ forall e, fst (fst (watch_dir fs args g)) = inl e ->
       In (Log ERROR (error_record args e)) (snd (try_watch_dir fs args g)).
Proof.
  unfold try_watch_dir, try_except.
  destruct (watch_dir fs args g) as [[[e|[]] g1] t1]; cbn [fst snd].
  - assert (Hh : exists h t,
              select_clause (except_clauses args) e = Some h
              /\ h e g1 = (inr tt, g1, t)
              /\ In (Log ERROR (error_record args e)) t).
    { destruct e as [errno| | | |]; cbn.
      - exists (except_OSError args). unfold except_OSError. cbn.
        destruct (errno =? ENOENT).
        + eexists. split; [reflexivity|]. split; [reflexivity|].
          left. reflexivity.
        + eexists. split; [reflexivity|]. split; [reflexivity|].
          left. reflexivity.
      - eexists. eexists. split; [reflexivity|]. split; [reflexivity|].
        left. reflexivity.
      - eexists. eexists. split; [reflexivity|]. split; [reflexivity|].
        left. reflexivity.
      - eexists. eexists. split; [reflexivity|]. split; [reflexivity|].
        left. reflexivity.
      - eexists. eexists. split; [reflexivity|]. split; [reflexivity|].
        left. reflexivity. }
    destruct Hh as [h [t [Hs [Hrun Hin]]]]. rewrite Hs, Hrun. cbn [fst snd].
    split; [reflexivity|].
    intros e' He'. inversion He'; subst e'.
    apply in_or_app. right. exact Hin.
  - split; [reflexivity|]. intros e He. discriminate.
Qed.




(** Only [signal_handler] writes [exit_flag]. *)

Section ExitFlag.

Variable b : bool.







End ExitFlag.





(** ** A tracked file that is gone when it is to be opened *)


(** * Further properties *)

(** ** The string tests *)

Lemma prefix_iff p s :
  String.prefix p s = true <-> exists rest, s = (p ++ rest)%string.
Proof.
  revert s. induction p as [|a p IH]; intros s.
  - split; [intros _; exists s; reflexivity|].
    intros _. destruct s; reflexivity.
  - destruct s as [|b s]; cbn [String.prefix String.append].
    + split; [discriminate | intros [rest H]; discriminate].
    + destruct (ascii_dec a b) as [->|Hne].
      * rewrite IH. split; intros [rest H]; exists rest.
        -- rewrite H. reflexivity.
        -- inversion H. reflexivity.
      * split; [discriminate|]. intros [rest H]. inversion H. congruence.
Qed.

Lemma contains_iff sub s :
  Str.contains sub s = true <-> occurs_in sub s.
Proof.
  unfold occurs_in. induction s as [|c s IH]; cbn [Str.contains].
  - destruct (String.prefix sub "") eqn:E.
    + split; [|reflexivity]. intros _. apply prefix_iff in E.
      destruct E as [rest E]. exists "", rest. exact E.
    + split; [discriminate|]. intros [before [after H]].
      destruct before; [|discriminate]. cbn in H.
      assert (E' : String.prefix sub "" = true)
        by (apply prefix_iff; exists after; exact H).
      congruence.
  - destruct (String.prefix sub (String c s)) eqn:E.
    + split; [|reflexivity]. intros _. apply prefix_iff in E.
      destruct E as [rest E]. exists "", rest. exact E.
    + rewrite IH. split.
      * intros [before [after H]]. exists (String c before), after.
        rewrite H. reflexivity.
      * intros [before [after H]]. destruct before as [|c' before].
        -- cbn in H.
           assert (E' : String.prefix sub (String c s) = true)
             by (apply prefix_iff; exists after; exact H).
           congruence.
        -- inversion H. exists before, after. reflexivity.
Qed.

Lemma endswith_iff s suffix :
  Str.endswith s suffix = true <-> has_suffix s suffix.
Proof.
  unfold has_suffix. induction s as [|c s IH]; cbn [Str.endswith].
  - destruct (String.eqb "" suffix) eqn:E.
    + apply String.eqb_eq in E. subst suffix.
      split; [|reflexivity]. intros _. exists "". reflexivity.
    + split; [discriminate|]. intros [front H].
      destruct front; [|discriminate]. cbn in H. subst suffix.
      discriminate.
  - destruct (String.eqb (String c s) suffix) eqn:E.
    + apply String.eqb_eq in E. split; [|reflexivity].
      intros _. exists "". rewrite <- E. reflexivity.
    + apply String.eqb_neq in E. rewrite IH. split.
      * intros [front H]. exists (String c front). rewrite H. reflexivity.
      * intros [front H]. destruct front as [|c' front].
        -- cbn in H. congruence.
        -- inversion H. exists front. reflexivity.
Qed.

(** ** What a scan reports *)

Lemma found_from_reported filename magic_word starting_line lines :
  forall index e,
    In e (found_from filename magic_word starting_line index lines) <->
    exists i line,
      nth_error lines i = Some line
      /\ starting_line <= index + Z.of_nat i
      /\ Str.contains magic_word line = true
      /\ e = Log INFO (Found filename magic_word (index + Z.of_nat i + 1)).
Proof.
  induction lines as [|l rest IH]; intros index e; cbn [found_from].
  - split; [intros [] | intros [i [line [H _]]]; destruct i; discriminate].
  - rewrite in_app_iff, IH. split.
    + intros [H|[i [line [Hn [Hs [Hc He]]]]]].
      * destruct ((index >=? starting_line) && Str.contains magic_word l)
          eqn:E; [|destruct H].
        destruct H as [H|[]]. apply andb_true_iff in E.
        destruct E as [E1 E2]. exists 0%nat, l.
        repeat split; [lia | exact E2 | rewrite <- H; f_equal; f_equal; lia].
      * exists (S i), line.
        repeat split; [exact Hn | lia | exact Hc |].
        rewrite He. f_equal. f_equal. lia.
    + intros [[|i] [line [Hn [Hs [Hc He]]]]].
      * left. cbn in Hn. inversion Hn; subst line.
        assert (E1 : (index >=? starting_line) = true)
          by (apply Z.geb_le; lia).
        rewrite E1, Hc. left. rewrite He. f_equal. f_equal. lia.
      * right. exists i, line.
        repeat split; [exact Hn | lia | exact Hc |].
        rewrite He. f_equal. f_equal. lia.
Qed.

Lemma found_from_lower_bound filename magic_word starting_line lines :
  forall index,
    Forall (fun e => index < record_line e)
      (found_from filename magic_word starting_line index lines).
Proof.
  induction lines as [|l rest IH]; intros index; cbn [found_from].
  - constructor.
  - apply Forall_app. split.
    + destruct ((index >=? starting_line) && Str.contains magic_word l);
        repeat constructor. cbn. lia.
    + eapply Forall_impl; [|apply IH]. cbn. intros e He. lia.
Qed.

Lemma found_from_increasing filename magic_word starting_line lines :
  forall index,
    StronglySorted (fun a b => record_line a < record_line b)
      (found_from filename magic_word starting_line index lines).
Proof.
  induction lines as [|l rest IH]; intros index; cbn [found_from].
  - constructor.
  - destruct ((index >=? starting_line) && Str.contains magic_word l);
      cbn [app]; [|apply IH].
    constructor; [apply IH|].
    eapply Forall_impl; [|apply found_from_lower_bound]. cbn.
    intros e He. lia.
Qed.

(** X1. For a file that opens, the records [find_magic] logs are exactly
    the [Found] records of the lines whose 0-based index is at least
    [starting_line] and in which the word occurs, each with its 1-based
    line number; they come in increasing order of line number, so no line
    is reported twice; and the globals are left as they were. *)
Theorem find_magic_reports_exactly fs filename starting_line magic_word text
    g :
  content fs filename = inr text ->
  (forall e,
     In e (snd (find_magic fs filename starting_line magic_word g)) <->
     reported filename magic_word starting_line (Str.readlines text) e)
  /\ StronglySorted (fun a b => record_line a < record_line b)
       (snd (find_magic fs filename starting_line magic_word g))
  /\ snd (fst (find_magic fs filename starting_line magic_word g)) = g.
Proof.
  intros Hc. rewrite (find_magic_spec _ _ _ _ _ _ Hc). cbn [fst snd].
  split; [|split; [apply found_from_increasing | reflexivity]].
  intros e. rewrite found_from_reported. unfold reported.
  split; intros [i [line [Hn [Hs [Ho He]]]]]; exists i, line;
    (repeat split; [exact Hn | lia | apply contains_iff; exact Ho
                   | rewrite He; do 2 f_equal; lia]).
Qed.

Lemma find_magic_reports_exactly_witness :
  In (Log INFO (Found "dir/a.txt" "hello" 3))
    (snd (find_magic Fixture.fs_a "dir/a.txt" 1 "hello" initial)).
Proof.
  destruct (find_magic_reports_exactly Fixture.fs_a "dir/a.txt" 1 "hello"
              Fixture.three_lines initial eq_refl) as [H _].
  apply H. exists 2%nat, (Str.ln "say hello").
  repeat split; [lia|]. exists "say ", (String Str.newline ""). reflexivity.
Defined.

Lemma found_from_above filename magic_word lines :
  forall index s1 s2,
    s1 <= index -> s2 <= index ->
    found_from filename magic_word s1 index lines =
    found_from filename magic_word s2 index lines.
Proof.
  induction lines as [|l rest IH]; intros index s1 s2 H1 H2.
  - reflexivity.
  - cbn [found_from].
    assert (E1 : (index >=? s1) = true) by (apply Z.geb_le; lia).
    assert (E2 : (index >=? s2) = true) by (apply Z.geb_le; lia).
    rewrite E1, E2. f_equal. apply IH; lia.
Qed.

(** X2. A file with at least one line is scanned from [starting_line] and
    the returned offset is stored; lines are appended and the file is
    scanned again from the stored offset.  The records of the two scans,
    one after the other, are the records of one scan of the grown file from
    [starting_line]: nothing is missed and nothing is reported twice. *)
Theorem two_scans_report_as_one fs1 fs2 filename magic_word starting_line
    text1 text2 appended g :
  content fs1 filename = inr text1 ->
  content fs2 filename = inr text2 ->
  Str.readlines text2 = Str.readlines text1 ++ appended ->
  Str.readlines text1 <> [] ->
  starting_line <= line_count text1 ->
  exists offset,
    fst (fst (find_magic fs1 filename starting_line magic_word g))
    = inr offset
    /\ snd (find_magic fs2 filename starting_line magic_word g) =
       snd (find_magic fs1 filename starting_line magic_word g)
       ++ snd (find_magic fs2 filename offset magic_word g).
Proof.
  intros H1 H2 Happ Hne Hle. exists (line_count text1).
  rewrite (find_magic_spec _ _ _ _ _ _ H1).
  rewrite !(find_magic_spec _ _ _ _ _ _ H2). cbn [fst snd].
  split.
  - destruct (Str.readlines text1); [congruence | reflexivity].
  - rewrite Happ, !found_from_app. unfold line_count in *.
    rewrite (found_from_skipped _ _ (Z.of_nat (length (Str.readlines text1)))
               (Str.readlines text1)) by lia.
    cbn [app]. f_equal. apply found_from_above; lia.
Qed.

Lemma two_scans_report_as_one_witness :
  exists offset,
    fst (fst (find_magic Fixture.fs_a "dir/a.txt" 0 "hello" initial))
    = inr offset
    /\ snd (find_magic Fixture.fs_grown "dir/a.txt" 0 "hello" initial) =
       snd (find_magic Fixture.fs_a "dir/a.txt" 0 "hello" initial)
       ++ snd (find_magic Fixture.fs_grown "dir/a.txt" offset "hello"
                 initial).
Proof.
  apply (two_scans_report_as_one Fixture.fs_a Fixture.fs_grown "dir/a.txt"
           "hello" 0 Fixture.three_lines
           (Fixture.three_lines ++ Str.ln "four" ++ Str.ln "hello again")
           [Str.ln "four"; Str.ln "hello again"] initial).
  - reflexivity.
  - reflexivity.
  - reflexivity.
  - discriminate.
  - vm_compute. discriminate.
Defined.

(** X3. When [starting_line] is at least the number of lines of the file
    (the file did not grow, or was cut below the stored offset), the scan
    logs nothing and returns the number of lines the file has now (1 for a
    file without lines), leaving the globals as they were. *)
Theorem scan_without_new_lines fs filename magic_word starting_line text g :
  content fs filename = inr text ->
  line_count text <= starting_line ->
  find_magic fs filename starting_line magic_word g =
    (inr (if line_count text =? 0 then 1 else line_count text), g, []).
Proof.
  intros Hc Hle. rewrite (find_magic_spec _ _ _ _ _ _ Hc).
  unfold line_count in *.
  rewrite found_from_skipped by lia.
  destruct (Str.readlines text); reflexivity.
Qed.

Lemma scan_without_new_lines_witness :
  find_magic Fixture.fs_a "dir/a.txt" 5 "hello" initial =
    (inr 3, initial, []).
Proof.
  apply (scan_without_new_lines Fixture.fs_a "dir/a.txt" "hello" 5
           Fixture.three_lines initial).
  - reflexivity.
  - vm_compute. discriminate.
Defined.

(** ** The dictionary and the records after a cycle *)

Lemma get_set_same k v d : Dict.get k (Dict.set k v d) = Some v.
Proof.
  induction d as [|[k0 v0] rest IH]; cbn.
  - rewrite String.eqb_refl. reflexivity.
  - destruct (String.eqb k k0) eqn:E; cbn; rewrite E; [reflexivity | exact IH].
Qed.

Lemma get_remove_same k d :
  NoDup (Dict.keys d) -> Dict.get k (Dict.remove k d) = None.
Proof.
  intros Hnd. pose proof (mem_remove_same k d Hnd) as H.
  unfold Dict.mem in H. destruct (Dict.get k (Dict.remove k d));
    [discriminate | reflexivity].
Qed.

Lemma mem_keys_bool name d : Str.mem name (Dict.keys d) = Dict.mem name d.
Proof.
  destruct (Dict.mem name d) eqn:E.
  - apply mem_In, mem_keys. exact E.
  - destruct (Str.mem name (Dict.keys d)) eqn:E'; [|reflexivity].
    apply mem_In, mem_keys in E'. congruence.
Qed.

Lemma add_if_new_eq args file g :
  add_if_new args file g =
    if Str.endswith file (ext args) && negb (Dict.mem file (files g))
    then (inr tt, Globals (Dict.set file 0 (files g)) (exit_flag g),
          [Log INFO (Added file)])
    else (inr tt, g, []).
Proof.
  unfold add_if_new, bind, get_files, files_setitem, put_files, logger_info,
    emit, ret. cbn -[Dict.mem Dict.set Str.endswith].
  destruct (Str.endswith file (ext args) && negb (Dict.mem file (files g)));
    reflexivity.
Qed.

(** The first loop, key by key. *)
Lemma add_new_files_spec args file_list name :
  forall g,
    fst (fst (add_new_files args file_list g)) = inr tt
    /\ Dict.get name (files (snd (fst (add_new_files args file_list g)))) =
       match Dict.get name (files g) with
       | Some v => Some v
       | None =>
           if Str.mem name file_list && Str.endswith name (ext args)
           then Some 0 else None
       end
    /\ existsb (is_added name) (snd (add_new_files args file_list g)) =
       negb (Dict.mem name (files g)) && Str.mem name file_list
       && Str.endswith name (ext args)
    /\ existsb (is_removed name) (snd (add_new_files args file_list g))
       = false.
Proof.
  unfold add_new_files.
  induction file_list as [|file rest IH]; intros g.
  - cbn. unfold Dict.mem. destruct (Dict.get name (files g)); cbn;
      rewrite ?andb_false_r; auto.
  - cbn [for_each].
    destruct (IH g) as [Hr0 [Hg0 [Ha0 Hd0]]].
    pose proof (add_if_new_eq args file g) as Hstep.
    destruct (Str.endswith file (ext args) && negb (Dict.mem file (files g)))
      eqn:E.
    + rewrite (bind_run _ _ _ _ _ _ _ _ Hstep). cbn [fst snd].
      set (g1 := Globals (Dict.set file 0 (files g)) (exit_flag g)).
      destruct (IH g1) as [Hr [Hg [Ha Hd]]].
      apply andb_true_iff in E. destruct E as [Eend Enew].
      apply negb_true_iff in Enew.
      split; [exact Hr|]. rewrite Hg, existsb_app, existsb_app, Ha, Hd.
      cbn [existsb is_added is_removed files g1 Str.mem orb].
      unfold Dict.mem in *. rewrite (String.eqb_sym file name).
      destruct (String.eqb name file) eqn:En.
      * apply String.eqb_eq in En. subst file.
        rewrite get_set_same.
        destruct (Dict.get name (files g)); [discriminate|].
        rewrite Eend. cbn. auto.
      * apply String.eqb_neq in En. rewrite get_set_other by exact En.
        cbn. auto.
    + rewrite (bind_run _ _ _ _ _ _ _ _ Hstep). cbn [fst snd app].
      split; [exact Hr0|]. rewrite Hg0, Ha0, Hd0.
      cbn [Str.mem]. unfold Dict.mem in *.
      destruct (String.eqb name file) eqn:En; [|auto].
      apply String.eqb_eq in En. subst file.
      destruct (Dict.get name (files g)); [cbn; auto|].
      cbn in E. rewrite andb_true_r in E. rewrite E.
      rewrite !andb_false_r. auto.
Qed.

(** The second loop over the keys [ks] still to visit, key by key. *)
Lemma remove_loop_spec file_list name ks :
  forall g,
    NoDup ks ->
    NoDup (Dict.keys (files g)) ->
    (forall k, In k ks -> Dict.mem k (files g) = true) ->
    fst (fst (for_each ks (remove_if_missing file_list) g)) = inr tt
    /\ NoDup (Dict.keys
                (files (snd (fst (for_each ks (remove_if_missing file_list)
                                    g)))))
    /\ Dict.get name
         (files (snd (fst (for_each ks (remove_if_missing file_list) g)))) =
       (if Str.mem name ks && negb (Str.mem name file_list)
        then None else Dict.get name (files g))
    /\ existsb (is_removed name)
         (snd (for_each ks (remove_if_missing file_list) g)) =
       Str.mem name ks && negb (Str.mem name file_list)
    /\ existsb (is_added name)
         (snd (for_each ks (remove_if_missing file_list) g)) = false.
Proof.
  induction ks as [|k rest IH]; intros g Hks Hnd Hin.
  - cbn. auto.
  - inversion Hks as [|? ? Hnotin Hrest]; subst.
    cbn [for_each Str.mem].
    destruct (Str.mem k file_list) eqn:Ek.
    + rewrite (bind_run _ _ _ _ _ _ _ _
                 (remove_if_missing_listed file_list k g Ek)).
      cbn [fst snd app].
      destruct (IH g Hrest Hnd (fun k' H => Hin k' (or_intror H)))
        as [Hr [Hn [Hg [Hd Ha]]]].
      split; [exact Hr | split; [exact Hn|]]. rewrite Hg, Hd, Ha.
      destruct (String.eqb name k) eqn:En; [|auto].
      apply String.eqb_eq in En. subst k. rewrite Ek.
      rewrite !andb_false_r. auto.
    + assert (Hk : Dict.mem k (files g) = true) by (apply Hin; left; auto).
      rewrite (bind_run _ _ _ _ _ _ _ _
                 (remove_if_missing_unlisted file_list k g Ek Hk)).
      cbn [fst snd].
      set (g1 := Globals (Dict.remove k (files g)) (exit_flag g)).
      assert (Hnd1 : NoDup (Dict.keys (files g1)))
        by (apply NoDup_keys_remove; exact Hnd).
      assert (Hin1 : forall k', In k' rest -> Dict.mem k' (files g1) = true).
      { intros k' Hk'. cbn. rewrite mem_remove_other.
        - apply Hin. right. exact Hk'.
        - intros ->. exact (Hnotin Hk'). }
      destruct (IH g1 Hrest Hnd1 Hin1) as [Hr [Hn [Hg [Hd Ha]]]].
      split; [exact Hr | split; [exact Hn|]].
      rewrite Hg, !existsb_app, Hd, Ha.
      cbn [existsb is_added is_removed files g1 orb].
      rewrite (String.eqb_sym k name).
      destruct (String.eqb name k) eqn:En.
      * apply String.eqb_eq in En. subst k. rewrite Ek.
        rewrite get_remove_same by exact Hnd. cbn.
        destruct (Str.mem name rest); auto.
      * apply String.eqb_neq in En. rewrite get_remove_other by exact En.
        cbn. auto.
Qed.

(** One call whose listing succeeds, key by key. *)
Lemma watch_dir_spec fs args file_list name g :
  listing fs (path args) = inr file_list ->
  NoDup (Dict.keys (files g)) ->
  fst (fst (watch_dir fs args g)) =
    match files (snd (fst (watch_dir fs args g))) with
    | [] => inr tt
    | _ :: _ => inl unhashable
    end
  /\ NoDup (Dict.keys (files (snd (fst (watch_dir fs args g)))))
  /\ Dict.get name (files (snd (fst (watch_dir fs args g)))) =
     (if Str.mem name file_list
      then match Dict.get name (files g) with
           | Some v => Some v
           | None => if Str.endswith name (ext args) then Some 0 else None
           end
      else None)
  /\ existsb (is_added name) (snd (watch_dir fs args g)) =
     negb (Dict.mem name (files g)) && Str.mem name file_list
     && Str.endswith name (ext args)
  /\ existsb (is_removed name) (snd (watch_dir fs args g)) =
     Dict.mem name (files g) && negb (Str.mem name file_list).
Proof.
  intros Hl Hnd.
  destruct (add_new_files_run args file_list g Hnd) as [_ [Hnd1 _]].
  destruct (add_new_files_spec args file_list name g)
    as [Hr1 [Hg1 [Ha1 Hd1]]].
  set (g1 := snd (fst (add_new_files args file_list g))) in *.
  destruct (remove_loop_spec file_list name (Dict.keys (files g1)) g1
              Hnd1 Hnd1 (fun k H => proj2 (mem_keys k (files g1)) H))
    as [Hr2 [Hnd2 [Hg2 [Hd2 Ha2]]]].
  set (r2 := for_each (Dict.keys (files g1)) (remove_if_missing file_list)
               g1) in *.
  assert (Hrun : watch_dir fs args g =
    (fst (fst (scan_files fs args (snd (fst r2)))), snd (fst r2),
     Log INFO (Watching (path args) (ext args) (interval args) (magic args))
     :: snd (add_new_files args file_list g) ++ snd r2)).
  { unfold watch_dir.
    rewrite (bind_run _ _ _ _ g tt g
               [Log INFO (Watching (path args) (ext args) (interval args)
                            (magic args))] eq_refl).
    assert (Hls : os_listdir fs (path args) g = (inr file_list, g, [])).
    { unfold os_listdir. rewrite Hl. reflexivity. }
    rewrite (bind_run _ _ _ _ _ _ _ _ Hls).
    assert (Hadd : add_new_files args file_list g =
                   (inr tt, g1, snd (add_new_files args file_list g))).
    { subst g1. destruct (add_new_files args file_list g) as [[r g'] t].
      cbn in *. subst r. reflexivity. }
    rewrite (bind_run _ _ _ _ _ _ _ _ Hadd).
    assert (Hrem : remove_missing_files file_list g1 =
                   (inr tt, snd (fst r2), snd r2)).
    { rewrite remove_missing_files_unfold. fold r2.
      destruct r2 as [[r g'] t]. cbn in *. subst r. reflexivity. }
    rewrite (bind_run _ _ _ _ _ _ _ _ Hrem).
    cbn [fst snd]. rewrite scan_files_globals, scan_files_trace.
    cbn [app]. rewrite app_nil_r. reflexivity. }
  rewrite Hrun. cbn [fst snd].
  split; [|split; [exact Hnd2|]].
  - destruct (files (snd (fst r2))) eqn:E.
    + rewrite scan_files_empty; auto.
    + rewrite scan_files_nonempty; [reflexivity | congruence].
  - cbn [existsb is_added is_removed].
    rewrite Hg2, !existsb_app, Ha1, Ha2, Hd1, Hd2, Hg1.
    rewrite mem_keys_bool. unfold Dict.mem. rewrite Hg1.
    destruct (Dict.get name (files g)) as [v|];
      destruct (Str.mem name file_list);
      destruct (Str.endswith name (ext args)); cbn; auto.
Qed.

Lemma count_records_app p t1 t2 :
  count_records p (t1 ++ t2) = (count_records p t1 + count_records p t2)%nat.
Proof. unfold count_records. rewrite filter_app, length_app. reflexivity. Qed.

(** The first loop logs the addition of a name at most once. *)
Lemma add_new_files_count args file_list name :
  forall g,
    count_records (is_added name) (snd (add_new_files args file_list g)) =
    if negb (Dict.mem name (files g)) && Str.mem name file_list
       && Str.endswith name (ext args)
    then 1%nat else 0%nat.
Proof.
  unfold add_new_files.
  induction file_list as [|file rest IH]; intros g.
  - cbn. rewrite andb_false_r. reflexivity.
  - cbn [for_each].
    pose proof (add_if_new_eq args file g) as Hstep.
    destruct (Str.endswith file (ext args) && negb (Dict.mem file (files g)))
      eqn:E.
    + rewrite (bind_run _ _ _ _ _ _ _ _ Hstep). cbn [fst snd].
      rewrite count_records_app, IH.
      apply andb_true_iff in E. destruct E as [Eend Enew].
      apply negb_true_iff in Enew.
      cbn [files Str.mem]. unfold count_records at 1.
      cbn [filter is_added]. rewrite (String.eqb_sym file name).
      destruct (String.eqb name file) eqn:En.
      * apply String.eqb_eq in En. subst file.
        unfold Dict.mem at 1. rewrite get_set_same. rewrite Enew, Eend.
        reflexivity.
      * apply String.eqb_neq in En. rewrite mem_set_other by exact En.
        reflexivity.
    + rewrite (bind_run _ _ _ _ _ _ _ _ Hstep). cbn [fst snd app].
      rewrite IH. cbn [Str.mem].
      destruct (String.eqb name file) eqn:En; [|reflexivity].
      apply String.eqb_eq in En. subst file.
      destruct (Dict.mem name (files g)); [reflexivity|].
      cbn in E. rewrite andb_true_r in E. rewrite E.
      rewrite !andb_false_r. reflexivity.
Qed.

(** The second loop logs the removal of a name at most once. *)
Lemma remove_loop_count file_list name ks :
  forall g,
    NoDup ks ->
    (forall k, In k ks -> Dict.mem k (files g) = true) ->
    count_records (is_removed name)
      (snd (for_each ks (remove_if_missing file_list) g)) =
    if Str.mem name ks && negb (Str.mem name file_list)
    then 1%nat else 0%nat.
Proof.
  induction ks as [|k rest IH]; intros g Hks Hin.
  - reflexivity.
  - inversion Hks as [|? ? Hnotin Hrest]; subst.
    cbn [for_each Str.mem].
    destruct (Str.mem k file_list) eqn:Ek.
    + rewrite (bind_run _ _ _ _ _ _ _ _
                 (remove_if_missing_listed file_list k g Ek)).
      cbn [fst snd app].
      rewrite (IH g Hrest (fun k' H => Hin k' (or_intror H))).
      destruct (String.eqb name k) eqn:En; [|reflexivity].
      apply String.eqb_eq in En. subst k. rewrite Ek.
      rewrite !andb_false_r. reflexivity.
    + assert (Hk : Dict.mem k (files g) = true) by (apply Hin; left; auto).
      rewrite (bind_run _ _ _ _ _ _ _ _
                 (remove_if_missing_unlisted file_list k g Ek Hk)).
      cbn [fst snd]. rewrite count_records_app.
      rewrite IH; [|exact Hrest|].
      * unfold count_records at 1. cbn [filter is_removed].
        rewrite (String.eqb_sym k name).
        destruct (String.eqb name k) eqn:En.
        -- apply String.eqb_eq in En. subst k. rewrite Ek.
           destruct (Str.mem name rest) eqn:Er.
           ++ apply mem_In in Er. contradiction.
           ++ reflexivity.
        -- reflexivity.
      * intros k' Hk'. cbn. rewrite mem_remove_other.
        -- apply Hin. right. exact Hk'.
        -- intros ->. exact (Hnotin Hk').
Qed.

(** A call whose listing succeeds, as its two loops followed by the test
    of the third. *)
Lemma watch_dir_run_eq fs args file_list g :
  listing fs (path args) = inr file_list ->
  well_formed g ->
  watch_dir fs args g =
    (match files (snd (fst (remove_missing_files file_list
                              (snd (fst (add_new_files args file_list g))))))
     with
     | [] => inr tt
     | _ :: _ => inl unhashable
     end,
     snd (fst (remove_missing_files file_list
                 (snd (fst (add_new_files args file_list g))))),
     Log INFO (Watching (path args) (ext args) (interval args) (magic args))
     :: snd (add_new_files args file_list g)
     ++ snd (remove_missing_files file_list
               (snd (fst (add_new_files args file_list g))))).
Proof.
  intros Hl Hnd.
  destruct (add_new_files_run args file_list g Hnd) as [Hr1 [Hnd1 _]].
  set (g1 := snd (fst (add_new_files args file_list g))) in *.
  destruct (remove_loop_spec file_list "" (Dict.keys (files g1)) g1
              Hnd1 Hnd1 (fun k H => proj2 (mem_keys k (files g1)) H))
    as [Hr2 _].
  rewrite <- remove_missing_files_unfold in Hr2.
  unfold watch_dir.
  rewrite (bind_run _ _ _ _ g tt g
             [Log INFO (Watching (path args) (ext args) (interval args)
                          (magic args))] eq_refl).
  assert (Hls : os_listdir fs (path args) g = (inr file_list, g, [])).
  { unfold os_listdir. rewrite Hl. reflexivity. }
  rewrite (bind_run _ _ _ _ _ _ _ _ Hls).
  assert (Hadd : add_new_files args file_list g =
                 (inr tt, g1, snd (add_new_files args file_list g))).
  { subst g1. destruct (add_new_files args file_list g) as [[r g'] t].
    cbn in *. subst r. reflexivity. }
  rewrite (bind_run _ _ _ _ _ _ _ _ Hadd).
  assert (Hrem : remove_missing_files file_list g1 =
                 (inr tt, snd (fst (remove_missing_files file_list g1)),
                  snd (remove_missing_files file_list g1))).
  { destruct (remove_missing_files file_list g1) as [[r g'] t].
    cbn in *. subst r. reflexivity. }
  rewrite (bind_run _ _ _ _ _ _ _ _ Hrem).
  cbn [fst snd]. rewrite scan_files_globals, scan_files_trace.
  cbn [app]. rewrite app_nil_r. f_equal. f_equal.
  destruct (files (snd (fst (remove_missing_files file_list g1)))) eqn:E.
  - rewrite scan_files_empty; auto.
  - rewrite scan_files_nonempty; [reflexivity | congruence].
Qed.

(** X4. After a call of [watch_dir] whose listing succeeds, a name is
    a key exactly when it is listed and either was a key or ends with the
    extension; a key that was there keeps its offset, a new key has offset
    0; the keys stay distinct. *)
Theorem dictionary_after_cycle fs args file_list name g :
  listing fs (path args) = inr file_list ->
  well_formed g ->
  Dict.get name (files (snd (fst (watch_dir fs args g)))) =
    (if Str.mem name file_list
     then match Dict.get name (files g) with
          | Some v => Some v
          | None => if Str.endswith name (ext args) then Some 0 else None
          end
     else None)
  /\ well_formed (snd (fst (watch_dir fs args g))).
Proof.
  intros Hl Hnd.
  destruct (watch_dir_spec fs args file_list name g Hl Hnd)
    as [_ [Hnd2 [Hg _]]].
  split; assumption.
Qed.

Lemma dictionary_after_cycle_witness :
  Dict.get "a.txt"
    (files (snd (fst (watch_dir Fixture.fs_mixed Fixture.args_txt
                        (Globals [("old.txt", 7)] false))))) = Some 0
  /\ well_formed (snd (fst (watch_dir Fixture.fs_mixed Fixture.args_txt
                              (Globals [("old.txt", 7)] false)))).
Proof.
  apply (dictionary_after_cycle Fixture.fs_mixed Fixture.args_txt
           ["a.txt"; "notes.log"] "a.txt" (Globals [("old.txt", 7)] false)).
  - reflexivity.
  - repeat constructor. intros [].
Defined.

Lemma cycle_counts fs args file_list name g :
  listing fs (path args) = inr file_list ->
  well_formed g ->
  count_records (is_added name) (snd (watch_dir fs args g)) =
    (if negb (Dict.mem name (files g)) && Str.mem name file_list
        && Str.endswith name (ext args)
     then 1%nat else 0%nat)
  /\ count_records (is_removed name) (snd (watch_dir fs args g)) =
     (if Dict.mem name (files g) && negb (Str.mem name file_list)
      then 1%nat else 0%nat).
Proof.
  intros Hl Hnd. rewrite (watch_dir_run_eq fs args file_list g Hl Hnd).
  cbn [snd].
  destruct (add_new_files_run args file_list g Hnd) as [_ [Hnd1 _]].
  destruct (add_new_files_spec args file_list name g) as [_ [Hg1 [Ha1 Hd1]]].
  set (g1 := snd (fst (add_new_files args file_list g))) in *.
  rewrite remove_missing_files_unfold.
  destruct (remove_loop_spec file_list name (Dict.keys (files g1)) g1
              Hnd1 Hnd1 (fun k H => proj2 (mem_keys k (files g1)) H))
    as [_ [_ [_ [Hd2 Ha2]]]].
  assert (Hzero : forall p t, existsb p t = false -> count_records p t = 0%nat).
  { intros p t. unfold count_records.
    induction t as [|e t IH]; cbn; [reflexivity|].
    destruct (p e); [discriminate | exact IH]. }
  change (Log INFO (Watching (path args) (ext args) (interval args)
                      (magic args))
          :: snd (add_new_files args file_list g)
          ++ snd (for_each (Dict.keys (files g1))
                    (remove_if_missing file_list) g1))
    with ([Log INFO (Watching (path args) (ext args) (interval args)
                       (magic args))]
          ++ snd (add_new_files args file_list g)
          ++ snd (for_each (Dict.keys (files g1))
                    (remove_if_missing file_list) g1)).
  rewrite !count_records_app.
  rewrite add_new_files_count, (Hzero _ _ Ha2), (Hzero _ _ Hd1).
  rewrite (remove_loop_count file_list name (Dict.keys (files g1)) g1 Hnd1
             (fun k H => proj2 (mem_keys k (files g1)) H)).
  rewrite mem_keys_bool. unfold Dict.mem. rewrite Hg1.
  unfold count_records. cbn [filter is_added is_removed length].
  split.
  - rewrite Nat.add_0_r. reflexivity.
  - destruct (Dict.get name (files g)) as [v|];
      destruct (Str.mem name file_list);
      destruct (Str.endswith name (ext args)); reflexivity.
Qed.

(** X5. In the records of a call whose listing succeeds, the addition of
    a name is logged once if the name is listed, ends with the extension
    and was not a key, and not at all otherwise; the removal of a name is
    logged once if it was a key and is not listed, and not at all
    otherwise. *)
Theorem additions_and_removals_logged_once fs args file_list name g :
  listing fs (path args) = inr file_list ->
  well_formed g ->
  count_records (is_added name) (snd (watch_dir fs args g)) =
    (if negb (Dict.mem name (files g)) && Str.mem name file_list
        && Str.endswith name (ext args)
     then 1%nat else 0%nat)
  /\ count_records (is_removed name) (snd (watch_dir fs args g)) =
     (if Dict.mem name (files g) && negb (Str.mem name file_list)
      then 1%nat else 0%nat).
Proof. apply cycle_counts. Qed.

Lemma additions_and_removals_logged_once_witness :
  count_records (is_added "a.txt")
    (snd (watch_dir Fixture.fs_mixed Fixture.args_txt
            (Globals [("old.txt", 7)] false))) = 1%nat
  /\ count_records (is_removed "a.txt")
       (snd (watch_dir Fixture.fs_mixed Fixture.args_txt
               (Globals [("old.txt", 7)] false))) = 0%nat.
Proof.
  apply (additions_and_removals_logged_once Fixture.fs_mixed Fixture.args_txt
           ["a.txt"; "notes.log"] "a.txt" (Globals [("old.txt", 7)] false)).
  - reflexivity.
  - repeat constructor. intros [].
Defined.

(** ** How a call ends *)

Lemma get_none_nil d : (forall name, Dict.get name d = None) -> d = [].
Proof.
  destruct d as [|[k v] rest]; [reflexivity|].
  intros H. specialize (H k). cbn in H. rewrite String.eqb_refl in H.
  discriminate.
Qed.

(** X6. A call of [watch_dir] ends in one of three ways and no other: it
    raises the [OSError] of the listing when the listing fails; it raises
    the [TypeError] of [files[files]] when the listing succeeds and some
    key is left in the dictionary; it returns when the listing succeeds and
    the dictionary is left empty, that is, when no listed name was a key
    or ends with the extension.  It never raises [KeyError]. *)
Theorem watch_dir_outcome fs args g :
  well_formed g ->
  fst (fst (watch_dir fs args g)) =
    match listing fs (path args) with
    | inl errno => inl (OSError errno)
    | inr file_list =>
        match files (snd (fst (watch_dir fs args g))) with
        | [] => inr tt
        | _ :: _ => inl unhashable
        end
    end
  /\ (fst (fst (watch_dir fs args g)) = inr tt <->
      exists file_list,
        listing fs (path args) = inr file_list
        /\ forall name, In name file_list ->
             Dict.mem name (files g) = false
             /\ Str.endswith name (ext args) = false).
Proof.
  intros Hnd. destruct (listing fs (path args)) as [errno|file_list] eqn:Hl.
  - rewrite (watching_then_listing_fails fs args errno g Hl). cbn [fst].
    split; [reflexivity|].
    split; [discriminate | intros [l [H _]]; discriminate].
  - destruct (watch_dir_spec fs args file_list "" g Hl Hnd) as [Hout _].
    split; [exact Hout|]. rewrite Hout. split.
    + intros Hret. exists file_list. split; [reflexivity|].
      intros name Hin.
      destruct (watch_dir_spec fs args file_list name g Hl Hnd)
        as [_ [_ [Hg _]]].
      destruct (files (snd (fst (watch_dir fs args g)))); [|discriminate].
      cbn in Hg. apply mem_In in Hin. rewrite Hin in Hg.
      unfold Dict.mem. destruct (Dict.get name (files g)); [discriminate|].
      destruct (Str.endswith name (ext args)); [discriminate | auto].
    + intros [l [Hl' Hall]]. inversion Hl'; subst l.
      rewrite (get_none_nil (files (snd (fst (watch_dir fs args g)))));
        [reflexivity|].
      intros name.
      destruct (watch_dir_spec fs args file_list name g Hl Hnd)
        as [_ [_ [Hg _]]].
      rewrite Hg. destruct (Str.mem name file_list) eqn:Hin; [|reflexivity].
      apply mem_In in Hin. destruct (Hall name Hin) as [Hm He].
      unfold Dict.mem in Hm. destruct (Dict.get name (files g));
        [discriminate|]. rewrite He. reflexivity.
Qed.

Lemma watch_dir_outcome_witness :
  fst (fst (watch_dir Fixture.fs_bare Fixture.args_txt initial)) = inr tt.
Proof.
  destruct (watch_dir_outcome Fixture.fs_bare Fixture.args_txt initial
              (NoDup_nil string)) as [_ [_ Hret]].
  apply Hret. exists []. split; [reflexivity | intros name []].
Defined.

(** ** Calls one after the other *)

Lemma add_new_files_nothing args file_list :
  forall g,
    (forall file, In file file_list ->
       Str.endswith file (ext args) = true ->
       Dict.mem file (files g) = true) ->
    add_new_files args file_list g = (inr tt, g, []).
Proof.
  unfold add_new_files.
  induction file_list as [|file rest IH]; intros g Hin.
  - reflexivity.
  - cbn [for_each].
    assert (Hstep : add_if_new args file g = (inr tt, g, [])).
    { rewrite add_if_new_eq.
      destruct (Str.endswith file (ext args)) eqn:E; [|reflexivity].
      rewrite (Hin file (or_introl eq_refl) E). reflexivity. }
    rewrite (bind_run _ _ _ _ _ _ _ _ Hstep). cbn [fst snd app].
    rewrite (IH g (fun f H => Hin f (or_intror H))). reflexivity.
Qed.

Lemma remove_loop_nothing file_list ks :
  forall g,
    (forall k, In k ks -> Str.mem k file_list = true) ->
    for_each ks (remove_if_missing file_list) g = (inr tt, g, []).
Proof.
  induction ks as [|k rest IH]; intros g Hin.
  - reflexivity.
  - cbn [for_each].
    rewrite (bind_run _ _ _ _ _ _ _ _
               (remove_if_missing_listed file_list k g
                  (Hin k (or_introl eq_refl)))).
    cbn [fst snd app].
    rewrite (IH g (fun k' H => Hin k' (or_intror H))). reflexivity.
Qed.

(** X7. A second call of [watch_dir] on a directory whose listing did not
    change leaves the dictionary exactly as the first call left it and logs
    nothing but the line that names the directory: no addition, no
    removal.  It ends as the first call ended. *)
Theorem second_cycle_changes_nothing fs args file_list g :
  listing fs (path args) = inr file_list ->
  well_formed g ->
  watch_dir fs args (snd (fst (watch_dir fs args g))) =
    (fst (fst (watch_dir fs args g)), snd (fst (watch_dir fs args g)),
     [Log INFO (Watching (path args) (ext args) (interval args)
                  (magic args))]).
Proof.
  intros Hl Hnd.
  destruct (watch_dir_spec fs args file_list "" g Hl Hnd)
    as [Hout [Hnd1 _]].
  set (g1 := snd (fst (watch_dir fs args g))) in *.
  assert (Hget : forall name,
    Dict.get name (files g1) =
    (if Str.mem name file_list
     then match Dict.get name (files g) with
          | Some v => Some v
          | None => if Str.endswith name (ext args) then Some 0 else None
          end
     else None)).
  { intros name.
    destruct (watch_dir_spec fs args file_list name g Hl Hnd)
      as [_ [_ [H _]]]. exact H. }
  assert (Hadd : add_new_files args file_list g1 = (inr tt, g1, [])).
  { apply add_new_files_nothing. intros file Hin He.
    apply mem_In in Hin. unfold Dict.mem. rewrite Hget, Hin, He.
    destruct (Dict.get file (files g)); reflexivity. }
  assert (Hrem : remove_missing_files file_list g1 = (inr tt, g1, [])).
  { rewrite remove_missing_files_unfold. apply remove_loop_nothing.
    intros k Hk. apply mem_keys in Hk. unfold Dict.mem in Hk.
    rewrite Hget in Hk. destruct (Str.mem k file_list);
      [reflexivity | discriminate]. }
  rewrite (watch_dir_run_eq fs args file_list g1 Hl Hnd1).
  rewrite Hadd. cbn [fst snd]. rewrite Hrem. cbn [fst snd app].
  rewrite Hout. reflexivity.
Qed.

Lemma second_cycle_changes_nothing_witness :
  watch_dir Fixture.fs_mixed Fixture.args_txt
    (Fixture.after Fixture.fs_mixed Fixture.args_txt) =
    (inl unhashable, Globals [("a.txt", 0)] false,
     [Log INFO (Watching "dir" ".txt" (Finite 1) "hello")]).
Proof.
  apply (second_cycle_changes_nothing Fixture.fs_mixed Fixture.args_txt
           ["a.txt"; "notes.log"] initial).
  - reflexivity.
  - constructor.
Defined.

(** X8. A key whose file is not listed in one cycle and listed again in a
    later one comes back with offset 0, whatever its offset was: the first
    call logs its removal, the second its addition. *)
Theorem removed_then_listed_again_restarts fs1 fs2 args list1 list2 name
    offset g :
  listing fs1 (path args) = inr list1 ->
  listing fs2 (path args) = inr list2 ->
  well_formed g ->
  Dict.get name (files g) = Some offset ->
  Str.endswith name (ext args) = true ->
  Str.mem name list1 = false ->
  Str.mem name list2 = true ->
  Dict.get name (files (snd (fst (watch_dir fs1 args g)))) = None
  /\ count_records (is_removed name) (snd (watch_dir fs1 args g)) = 1%nat
  /\ Dict.get name
       (files (snd (fst (watch_dir fs2 args
                           (snd (fst (watch_dir fs1 args g))))))) = Some 0
  /\ count_records (is_added name)
       (snd (watch_dir fs2 args (snd (fst (watch_dir fs1 args g)))))
     = 1%nat.
Proof.
  intros Hl1 Hl2 Hnd Hget Hend Hout Hin.
  destruct (watch_dir_spec fs1 args list1 name g Hl1 Hnd)
    as [_ [Hnd1 [Hg1 _]]].
  rewrite Hout in Hg1.
  destruct (cycle_counts fs1 args list1 name g Hl1 Hnd) as [_ Hrem].
  unfold Dict.mem in Hrem. rewrite Hget, Hout in Hrem.
  set (g1 := snd (fst (watch_dir fs1 args g))) in *.
  destruct (watch_dir_spec fs2 args list2 name g1 Hl2 Hnd1)
    as [_ [_ [Hg2 _]]].
  rewrite Hin, Hg1, Hend in Hg2.
  destruct (cycle_counts fs2 args list2 name g1 Hl2 Hnd1) as [Hadd _].
  unfold Dict.mem in Hadd. rewrite Hg1, Hin, Hend in Hadd.
  repeat split; assumption.
Qed.

Lemma removed_then_listed_again_restarts_witness :
  Dict.get "a.txt"
    (files (snd (fst (watch_dir Fixture.fs_a Fixture.args_txt
                        (snd (fst (watch_dir Fixture.fs_bare Fixture.args_txt
                                     (Globals [("a.txt", 9)] false))))))))
  = Some 0.
Proof.
  assert (Hwf : well_formed (Globals [("a.txt", 9)] false)).
  { repeat constructor. intros []. }
  destruct (removed_then_listed_again_restarts Fixture.fs_bare Fixture.fs_a
              Fixture.args_txt [] ["a.txt"] "a.txt" 9
              (Globals [("a.txt", 9)] false)
              eq_refl eq_refl Hwf eq_refl eq_refl eq_refl eq_refl)
    as [_ [_ [H _]]].
  exact H.
Defined.

(** ** The handlers of the loop *)

Lemma except_OSError_other args errno g :
  errno <> ENOENT ->
  except_OSError args (OSError errno) g =
    (inr tt, g, [Log ERROR (ErrorRecord (OSError errno))]).
Proof.
  intros Hne. unfold except_OSError. cbn [errno_of].
  assert (E : (errno =? ENOENT) = false) by (apply Z.eqb_neq; exact Hne).
  rewrite E. reflexivity.
Qed.

(** X9. When the listing fails with an errno other than ENOENT (the path
    is not a directory, permission is denied), the [try] statement logs
    the error itself at level ERROR, does not sleep the 2 seconds, and
    leaves the globals as they were. *)
Theorem other_listing_errors_logged_without_grace fs args errno g :
  listing fs (path args) = inl errno ->
  errno <> ENOENT ->
  try_watch_dir fs args g =
    (inr tt, g,
     [Log INFO (Watching (path args) (ext args) (interval args)
                  (magic args));
      Log ERROR (ErrorRecord (OSError errno))]).
Proof.
  intros Hl Hne. unfold try_watch_dir.
  rewrite (try_except_caught _ (watch_dir fs args) (except_clauses args)
             (except_OSError args) _ _ _ _
             (watching_then_listing_fails fs args errno g Hl) eq_refl).
  rewrite (except_OSError_other args errno g Hne). reflexivity.
Qed.

Lemma other_listing_errors_logged_without_grace_witness :
  try_watch_dir (Fixture.mkfs (inl EACCES) []) Fixture.args_txt initial =
    (inr tt, initial,
     [Log INFO (Watching "dir" ".txt" (Finite 1) "hello");
      Log ERROR (ErrorRecord (OSError EACCES))]).
Proof.
  apply (other_listing_errors_logged_without_grace
           (Fixture.mkfs (inl EACCES) []) Fixture.args_txt EACCES initial).
  - reflexivity.
  - discriminate.
Defined.

(** X10. Whenever the listing succeeds and some listed name is a key or
    ends with the extension, the cycle ends with the [TypeError] of
    [files[files]] and the [try] statement logs it as an unhandled
    exception, after the records of the cycle; the dictionary is the one
    the first two loops made. *)
Theorem tracked_file_makes_the_cycle_fail fs args file_list name g :
  listing fs (path args) = inr file_list ->
  well_formed g ->
  In name file_list ->
  Dict.mem name (files g) = true \/ Str.endswith name (ext args) = true ->
  fst (fst (watch_dir fs args g)) = inl unhashable
  /\ try_watch_dir fs args g =
       (inr tt, snd (fst (watch_dir fs args g)),
        snd (watch_dir fs args g) ++ [Log ERROR (Unhandled unhashable)]).
Proof.
  intros Hl Hnd Hin Hor.
  destruct (watch_dir_spec fs args file_list name g Hl Hnd)
    as [Hout [_ [Hg _]]].
  apply mem_In in Hin. rewrite Hin in Hg.
  assert (Hne : files (snd (fst (watch_dir fs args g))) <> []).
  { intros E. rewrite E in Hg. cbn in Hg.
    unfold Dict.mem in Hor. destruct (Dict.get name (files g));
      [discriminate|].
    destruct Hor as [H|H]; [discriminate|]. rewrite H in Hg. discriminate. }
  assert (Hraise : fst (fst (watch_dir fs args g)) = inl unhashable).
  { rewrite Hout. destruct (files (snd (fst (watch_dir fs args g))));
      [congruence | reflexivity]. }
  split; [exact Hraise|].
  unfold try_watch_dir.
  clear Hout.
  destruct (watch_dir fs args g) as [[r g1] t1] eqn:Hw.
  cbn [fst snd] in *. subst r.
  rewrite (try_except_caught _ (watch_dir fs args) (except_clauses args)
             except_Exception _ _ _ _ Hw eq_refl).
  reflexivity.
Qed.

Lemma tracked_file_makes_the_cycle_fail_witness :
  try_watch_dir Fixture.fs_a Fixture.args_txt initial =
    (inr tt, Globals [("a.txt", 0)] false,
     [Log INFO (Watching "dir" ".txt" (Finite 1) "hello");
      Log INFO (Added "a.txt");
      Log ERROR (Unhandled unhashable)]).
Proof.
  destruct (tracked_file_makes_the_cycle_fail Fixture.fs_a Fixture.args_txt
              ["a.txt"] "a.txt" initial eq_refl (NoDup_nil string)
              (or_introl eq_refl) (or_intror eq_refl)) as [_ H].
  exact H.
Defined.

(** ** Signals *)



(** The events of the pass are all there, in their order, around the
    records of the handlers. *)
Lemma with_signals_keeps_own arrivals :
  forall g own e, In e own -> In e (snd (with_signals arrivals g own)).
Proof.
  induction arrivals as [|[k s] rest IH]; intros g own e Hin.
  - exact Hin.
  - cbn [with_signals]. cbn -[with_signals firstn skipn].
    specialize (IH (Globals (files g) true) (skipn k own) e).
    destruct (with_signals rest (Globals (files g) true) (skipn k own))
      as [g2 t2].
    cbn [snd] in *. rewrite <- (firstn_skipn k own) in Hin.
    apply in_app_or in Hin. apply in_or_app.
    destruct Hin as [Hin|Hin]; [left; exact Hin|].
    right. right. exact (IH Hin).
Qed.



(** ** The sleep of the interval *)

Lemma sleep_interval_eq args g :
  sleep_interval args g =
    match py_int (interval args) with
    | inl e => (inl e, g, [])
    | inr secs => (fst (fst (time_sleep secs g)), g, snd (time_sleep secs g))
    end.
Proof.
  unfold sleep_interval, bind, lift, time_sleep.
  destruct (py_int (interval args)) as [e|secs]; [reflexivity|].
  cbn [ret].
  destruct ((secs <? - sleep_max) || (sleep_max <? secs)); [reflexivity|].
  destruct (secs <? 0); reflexivity.
Qed.

Lemma time_sleep_state secs g g' :
  fst (fst (time_sleep secs g)) = fst (fst (time_sleep secs g'))
  /\ snd (time_sleep secs g) = snd (time_sleep secs g').
Proof.
  unfold time_sleep.
  destruct ((secs <? - sleep_max) || (sleep_max <? secs)); [auto|].
  destruct (secs <? 0); auto.
Qed.

Lemma sleep_error_some args e g :
  sleep_error args = Some e -> sleep_interval args g = (inl e, g, []).
Proof.
  unfold sleep_error. rewrite !sleep_interval_eq.
  destruct (py_int (interval args)) as [e'|secs]; cbn [fst snd].
  - intros H. inversion H. reflexivity.
  - destruct (time_sleep_state secs g initial) as [H1 H2].
    rewrite H1, H2. unfold time_sleep.
    destruct ((secs <? - sleep_max) || (sleep_max <? secs)); cbn;
      [intros H; inversion H; reflexivity|].
    destruct (secs <? 0); cbn; intros H; inversion H. reflexivity.
Qed.

(** X12. With an interval that the sleep rejects (not a number, infinite,
    truncating to a negative number of seconds, or too long for
    [time.sleep]), the first pass of the loop runs its cycle, and then the
    exception of the sleep, which is outside the [try] statement, ends the
    loop: the interval is not slept and no second cycle runs.  The signals
    that arrived during that pass were handled, their records are among
    those of the cycle and the flag is set, but the loop ends with the
    exception all the same. *)
Theorem rejected_interval_ends_the_loop t later args e g :
  sleep_error args = Some e ->
  exit_flag g = false ->
  main_loop args (t :: later) g =
    (Crashed e,
     fst (with_signals (tick_signals t)
            (snd (fst (try_watch_dir (tick_fs t) args g)))
            (snd (try_watch_dir (tick_fs t) args g))),
     snd (with_signals (tick_signals t)
            (snd (fst (try_watch_dir (tick_fs t) args g)))
            (snd (try_watch_dir (tick_fs t) args g)))).
Proof.
  intros He Hg. cbn [main_loop]. rewrite Hg.
  destruct (try_watch_dir_catches (tick_fs t) args g) as [Hr _].
  destruct (try_watch_dir (tick_fs t) args g) as [[r g1] t1] eqn:Ht.
  cbn [fst snd] in *. subst r.
  assert (Hbody : loop_body (tick_fs t) args g = (inl e, g1, t1)).
  { unfold loop_body. rewrite (bind_run _ _ _ _ _ _ _ _ Ht).
    rewrite (sleep_error_some args e g1 He). cbn [fst snd].
    rewrite app_nil_r. reflexivity. }
  unfold pass. rewrite Hbody.
  destruct (with_signals (tick_signals t) g1 t1) as [g2 tr]. reflexivity.
Qed.

Lemma rejected_interval_ends_the_loop_witness :
  main_loop (MkArgs "dir" "hello" ".txt" NaN)
    [Tick Fixture.fs_a [(1%nat, SIGINT)]; Tick Fixture.fs_a []] initial =
  (Crashed (ValueError "cannot convert float NaN to integer"),
   Globals [("a.txt", 0)] true,
   [Log INFO (Watching "dir" ".txt" NaN "hello");
    Log WARNING (Received "SIGINT");
    Log INFO (Added "a.txt");
    Log ERROR (Unhandled unhashable)]).
Proof.
  apply (rejected_interval_ends_the_loop
           (Tick Fixture.fs_a [(1%nat, SIGINT)]) [Tick Fixture.fs_a []]
           (MkArgs "dir" "hello" ".txt" NaN)
           (ValueError "cannot convert float NaN to integer") initial);
    reflexivity.
Defined.






(** ** An empty word, an empty extension *)

Lemma endswith_empty s : Str.endswith s "" = true.
Proof.
  induction s as [|c s IH]; [reflexivity|].
  cbn [Str.endswith]. cbn [String.eqb]. exact IH.
Qed.

Lemma contains_empty s : Str.contains "" s = true.
Proof. destruct s; reflexivity. Qed.

Lemma found_from_empty_word filename starting_line lines :
  forall index,
    length (found_from filename "" starting_line index lines) =
    Z.to_nat (index + Z.of_nat (length lines) - Z.max starting_line index).
Proof.
  induction lines as [|l rest IH]; intros index.
  - cbn. lia.
  - cbn [found_from]. rewrite length_app, IH, contains_empty, andb_true_r.
    cbn [length]. destruct (Z.geb_spec index starting_line); cbn [length];
      lia.
Qed.

(** X14. With the empty string as the word, every line contains it: a scan
    logs one record for each line from [starting_line] on (from the first
    line when [starting_line] is negative), as many records as the file
    has lines there. *)
Theorem empty_word_reports_every_line fs filename starting_line text g :
  content fs filename = inr text ->
  length (snd (find_magic fs filename starting_line "" g)) =
    Z.to_nat (line_count text - Z.max starting_line 0).
Proof.
  intros Hc. rewrite (find_magic_spec _ _ _ _ _ _ Hc). cbn [snd].
  rewrite found_from_empty_word. unfold line_count. f_equal.
Qed.

Lemma empty_word_reports_every_line_witness :
  length (snd (find_magic Fixture.fs_a "dir/a.txt" 1 "" initial)) = 2%nat.
Proof.
  apply (empty_word_reports_every_line Fixture.fs_a "dir/a.txt" 1
           Fixture.three_lines initial eq_refl).
Defined.

(** X15. With the empty string as the extension, every name ends with it:
    after a call whose listing succeeds, the keys of the dictionary are
    exactly the listed names. *)
Theorem empty_extension_tracks_every_listed_name fs args file_list name g :
  ext args = "" ->
  listing fs (path args) = inr file_list ->
  well_formed g ->
  Dict.mem name (files (snd (fst (watch_dir fs args g)))) =
    Str.mem name file_list.
Proof.
  intros He Hl Hnd.
  destruct (watch_dir_spec fs args file_list name g Hl Hnd)
    as [_ [_ [Hg _]]].
  unfold Dict.mem. rewrite Hg, He, endswith_empty.
  destruct (Str.mem name file_list); [|reflexivity].
  destruct (Dict.get name (files g)); reflexivity.
Qed.

Lemma empty_extension_tracks_every_listed_name_witness :
  Dict.mem "notes.log"
    (files (snd (fst (watch_dir Fixture.fs_mixed
                        (MkArgs "dir" "hello" "" (Finite 1)) initial))))
  = true.
Proof.
  apply (empty_extension_tracks_every_listed_name Fixture.fs_mixed
           (MkArgs "dir" "hello" "" (Finite 1)) ["a.txt"; "notes.log"]
           "notes.log" initial eq_refl eq_refl (NoDup_nil string)).
Defined.

(** ** The name a signal is logged under *)

Lemma pyobj_eqb_eq a b : pyobj_eqb a b = true <-> a = b.
Proof.
  destruct a as [x|i], b as [y|j]; cbn.
  - rewrite Z.eqb_eq. split; [intros ->; reflexivity | congruence].
  - split; discriminate.
  - split; discriminate.
  - rewrite Nat.eqb_eq. split; [intros ->; reflexivity | congruence].
Qed.

Lemma pyobj_eqb_refl a : pyobj_eqb a a = true.
Proof. apply pyobj_eqb_eq. reflexivity. Qed.

Lemma table_get_set k k' v d :
  Table.get k' (Table.set k v d) =
    if pyobj_eqb k' k then Some v else Table.get k' d.
Proof.
  induction d as [|[k0 v0] rest IH]; cbn.
  - reflexivity.
  - destruct (pyobj_eqb k k0) eqn:E; cbn.
    + apply pyobj_eqb_eq in E. subst k0.
      destruct (pyobj_eqb k' k); reflexivity.
    + rewrite IH. destruct (pyobj_eqb k' k0) eqn:E0; [|reflexivity].
      apply pyobj_eqb_eq in E0. subst k0.
      destruct (pyobj_eqb k' k) eqn:E1; [|reflexivity].
      apply pyobj_eqb_eq in E1. subst k'.
      rewrite pyobj_eqb_refl in E. discriminate.
Qed.

Lemma find_over_app A (p : A -> bool) xs ys :
  find p (xs ++ ys) =
    match find p xs with
    | Some x => Some x
    | None => find p ys
    end.
Proof.
  induction xs as [|x rest IH]; cbn; [reflexivity|].
  destruct (p x); [reflexivity | exact IH].
Qed.

(** The last pair entered for a key decides its value. *)
Lemma fold_set_get k items :
  forall d,
    Table.get k
      (fold_left
         (fun d item => if is_signal_name (fst item)
                        then Table.set (snd item) (fst item) d
                        else d)
         items d) =
    match find (fun item => is_signal_name (fst item)
                            && pyobj_eqb k (snd item)) (rev items) with
    | Some item => Some (fst item)
    | None => Table.get k d
    end.
Proof.
  induction items as [|x rest IH]; intros d.
  - reflexivity.
  - cbn [fold_left rev]. rewrite IH, find_over_app.
    destruct (find _ (rev rest)); [reflexivity|].
    cbn [find]. destruct (is_signal_name (fst x)); cbn [andb].
    + rewrite table_get_set. destruct (pyobj_eqb k (snd x)); reflexivity.
    + reflexivity.
Qed.

Lemma name_leb_refl a : name_leb a a = true.
Proof.
  unfold name_leb. destruct (String_as_OT.compare_spec a a) as [_|_|H];
    [reflexivity | reflexivity|].
  exfalso. exact (StrictOrder_Irreflexive a H).
Qed.

Lemma name_leb_total a b : name_leb a b = true \/ name_leb b a = true.
Proof.
  unfold name_leb.
  destruct (String_as_OT.compare_spec a b) as [H|H|H]; [auto | auto|].
  right. destruct (String_as_OT.compare_spec b a) as [H'|H'|H'];
    [reflexivity | reflexivity|].
  exfalso.
  exact (StrictOrder_Irreflexive a (StrictOrder_Transitive _ _ _ H' H)).
Qed.

Lemma name_leb_lt a b :
  name_leb a b = true <-> a = b \/ String_as_OT.lt a b.
Proof.
  unfold name_leb.
  destruct (String_as_OT.compare_spec a b) as [H|H|H].
  - split; auto.
  - split; auto.
  - split; [discriminate|]. intros [E|L].
    + subst b. exfalso. exact (StrictOrder_Irreflexive a H).
    + exfalso.
      exact (StrictOrder_Irreflexive a (StrictOrder_Transitive _ _ _ L H)).
Qed.

Lemma name_leb_trans a b c :
  name_leb a b = true -> name_leb b c = true -> name_leb a c = true.
Proof.
  rewrite !name_leb_lt. intros [->|H1] [->|H2]; auto.
  right. exact (StrictOrder_Transitive _ _ _ H1 H2).
Qed.

Lemma name_leb_antisym a b :
  name_leb a b = true -> name_leb b a = true -> a = b.
Proof.
  rewrite !name_leb_lt. intros [->|H1] [E|H2]; auto.
  exfalso.
  exact (StrictOrder_Irreflexive a (StrictOrder_Transitive _ _ _ H1 H2)).
Qed.

Lemma insert_item_perm x xs : Permutation (insert_item x xs) (x :: xs).
Proof.
  induction xs as [|y ys IH]; cbn.
  - reflexivity.
  - destruct (name_leb (fst x) (fst y)); [reflexivity|].
    rewrite IH. apply perm_swap.
Qed.

Lemma sorted_items_perm xs : Permutation (sorted_items xs) xs.
Proof.
  induction xs as [|x rest IH]; cbn.
  - reflexivity.
  - rewrite insert_item_perm. constructor. exact IH.
Qed.

Lemma insert_item_sorted x xs :
  StronglySorted (fun a b => name_leb (fst a) (fst b) = true) xs ->
  StronglySorted (fun a b => name_leb (fst a) (fst b) = true)
    (insert_item x xs).
Proof.
  induction 1 as [|y ys Hys IH Hy]; cbn.
  - repeat constructor.
  - destruct (name_leb (fst x) (fst y)) eqn:E.
    + constructor; [constructor; assumption|].
      constructor; [exact E|].
      eapply Forall_impl; [|exact Hy]. cbn. intros z Hz.
      exact (name_leb_trans _ _ _ E Hz).
    + constructor; [exact IH|].
      assert (Hyx : name_leb (fst y) (fst x) = true).
      { destruct (name_leb_total (fst x) (fst y)); [congruence | assumption]. }
      rewrite Forall_forall. intros z Hz.
      apply (Permutation_in _ (insert_item_perm x ys)) in Hz.
      destruct Hz as [<-|Hz]; [exact Hyx|].
      rewrite Forall_forall in Hy. exact (Hy z Hz).
Qed.

Lemma sorted_items_sorted xs :
  StronglySorted (fun a b => name_leb (fst a) (fst b) = true)
    (sorted_items xs).
Proof.
  induction xs as [|x rest IH]; cbn.
  - constructor.
  - apply insert_item_sorted. exact IH.
Qed.

(** In a sorted list, [find] gives the first of the items that pass. *)
Lemma find_sorted_least (p : string * pyobj -> bool) xs x :
  StronglySorted (fun a b => name_leb (fst a) (fst b) = true) xs ->
  find p xs = Some x ->
  In x xs /\ p x = true
  /\ forall y, In y xs -> p y = true -> name_leb (fst x) (fst y) = true.
Proof.
  induction 1 as [|z zs Hzs IH Hz]; cbn; [discriminate|].
  destruct (p z) eqn:E.
  - intros H. inversion H; subst z.
    split; [auto | split; [exact E|]].
    intros y [<-|Hy] _; [apply name_leb_refl|].
    rewrite Forall_forall in Hz. exact (Hz y Hy).
  - intros H. destruct (IH H) as [Hin [Hp Hleast]].
    split; [auto | split; [exact Hp|]].
    intros y [<-|Hy] Hpy; [congruence | exact (Hleast y Hy Hpy)].
Qed.

Lemma find_some_exists (p : string * pyobj -> bool) xs y :
  In y xs -> p y = true -> exists x, find p xs = Some x.
Proof.
  induction xs as [|z zs IH]; cbn; [intros []|].
  intros [<-|Hy] Hp.
  - rewrite Hp. eauto.
  - destruct (p z); eauto.
Qed.

(** X16. The table [signames] of [signal_handler], built from the
    attributes of the [signal] module (their names distinct), gives a
    signal number the first, in the order of strings, of the names that
    start with SIG but not with SIG_ and carry that number; a number that
    no such name carries is not a key.  So a signal with several names is
    logged under the alphabetically first one. *)
Theorem signames_gives_first_name items n name :
  NoDup (map fst items) ->
  Table.get (Num n) (signames items) = Some name <->
  first_signal_name items n name.
Proof.
  intros Hnd. unfold signames, first_signal_name.
  rewrite fold_set_get, rev_involutive. cbn [Table.get].
  set (p := fun item : string * pyobj =>
              is_signal_name (fst item) && pyobj_eqb (Num n) (snd item)).
  pose proof (sorted_items_sorted items) as Hs.
  pose proof (sorted_items_perm items) as Hp.
  split.
  - destruct (find p (sorted_items items)) as [[nm v]|] eqn:Hf;
      [|discriminate].
    intros H. inversion H; subst nm. clear H.
    destruct (find_sorted_least p _ _ Hs Hf) as [Hin [Hpx Hleast]].
    unfold p in Hpx. cbn [fst snd] in Hpx.
    apply andb_true_iff in Hpx. destruct Hpx as [Hsig Heq].
    apply pyobj_eqb_eq in Heq. subst v.
    split; [exact (Permutation_in _ Hp Hin) | split; [exact Hsig|]].
    intros other Ho Hso.
    apply (Hleast (other, Num n)).
    + exact (Permutation_in _ (Permutation_sym Hp) Ho).
    + unfold p. cbn [fst snd]. rewrite Hso, pyobj_eqb_refl. reflexivity.
  - intros [Hin [Hsig Hleast]].
    assert (Hpn : p (name, Num n) = true).
    { unfold p. cbn [fst snd]. rewrite Hsig, pyobj_eqb_refl. reflexivity. }
    destruct (find_some_exists p (sorted_items items) (name, Num n)
                (Permutation_in _ (Permutation_sym Hp) Hin) Hpn)
      as [[nm v] Hf].
    rewrite Hf. f_equal. cbn [fst].
    destruct (find_sorted_least p _ _ Hs Hf) as [Hin' [Hpx Hleast']].
    unfold p in Hpx. cbn [fst snd] in Hpx.
    apply andb_true_iff in Hpx. destruct Hpx as [Hsig' Heq].
    apply pyobj_eqb_eq in Heq. subst v.
    apply name_leb_antisym.
    + exact (Hleast' (name, Num n)
               (Permutation_in _ (Permutation_sym Hp) Hin) Hpn).
    + exact (Hleast nm (Permutation_in _ Hp Hin') Hsig').
Qed.

Lemma signames_gives_first_name_witness :
  first_signal_name Fixture.signal_items 6 "SIGABRT".
Proof.
  assert (Hnd : NoDup (map fst Fixture.signal_items)).
  { cbn. repeat constructor; cbn; intuition discriminate. }
  apply (signames_gives_first_name Fixture.signal_items 6 "SIGABRT" Hnd).
  reflexivity.
Defined.

(** ** The loop of [main] from the start *)

Lemma watch_dir_well_formed fs args g :
  well_formed g -> well_formed (snd (fst (watch_dir fs args g))).
Proof.
  intros Hnd. destruct (listing fs (path args)) as [errno|file_list] eqn:Hl.
  - rewrite (watching_then_listing_fails fs args errno g Hl). exact Hnd.
  - destruct (watch_dir_spec fs args file_list "" g Hl Hnd) as [_ [H _]].
    exact H.
Qed.

Lemma reachable_well_formed args g tr :
  reachable args g tr -> well_formed g.
Proof.
  induction 1 as [|fs g tr _ IH].
  - constructor.
  - apply watch_dir_well_formed. exact IH.
Qed.

(** X17. Run from the initial globals, the loop of [main] keeps, for every
    schedule of directory contents and signals and for every interval,
    extension and word: every key of the dictionary ends with the
    extension, every stored offset is 0, and no [Found] record is ever
    logged, by the cycles, the handlers or the signal handler. *)
Theorem main_loop_never_reports args schedule :
  Forall (fun entry => Str.endswith (fst entry) (ext args) = true
                       /\ snd entry = 0)
    (files (snd (fst (main_loop args schedule initial))))
  /\ found_records (snd (main_loop args schedule initial)) = [].
Proof.
  destruct (main_loop_ok args
              (fun entry => Str.endswith (fst entry) (ext args) = true
                            /\ snd entry = 0)
              (fun file He => conj He eq_refl) schedule initial
              (Forall_nil _)) as [Hg Ht].
  split; [exact Hg | apply found_records_nil; exact Ht].
Qed.

(** ** The body of the loop and the signal handler do not meet *)

Lemma blind_ret A (a : A) : flag_blind (ret a).
Proof. intros b g. reflexivity. Qed.

Lemma blind_raise A (e : exn) : flag_blind (@raise A e).
Proof. intros b g. reflexivity. Qed.

Lemma blind_emit e : flag_blind (emit e).
Proof. intros b g. reflexivity. Qed.

Lemma blind_get_files : flag_blind get_files.
Proof. intros b g. reflexivity. Qed.

Lemma blind_put_files d : flag_blind (put_files d).
Proof. intros b g. reflexivity. Qed.

Lemma blind_bind A B (m : M A) (k : A -> M B) :
  flag_blind m -> (forall a, flag_blind (k a)) -> flag_blind (bind m k).
Proof.
  intros Hm Hk b g. unfold bind. rewrite (Hm b g).
  destruct (m g) as [[[e|a] g1] t1]; cbn [fst snd]; [reflexivity|].
  rewrite (Hk a b g1).
  destruct (k a g1) as [[r g2] t2]. reflexivity.
Qed.

Lemma blind_for_each A (xs : list A) (body : A -> M unit) :
  (forall x, flag_blind (body x)) -> flag_blind (for_each xs body).
Proof.
  intros Hbody. induction xs as [|x rest IH]; cbn [for_each].
  - apply blind_ret.
  - apply blind_bind; auto.
Qed.

Lemma blind_try_except A (m : M A) clauses :
  flag_blind m ->
  (forall accepts handler e, In (accepts, handler) clauses ->
     flag_blind (handler e)) ->
  flag_blind (try_except m clauses).
Proof.
  intros Hm Hc b g. unfold try_except. rewrite (Hm b g).
  destruct (m g) as [[[e|a] g1] t1]; cbn [fst snd]; [|reflexivity].
  assert (Hsel : forall h, select_clause clauses e = Some h ->
                           flag_blind (h e)).
  { clear -Hc. induction clauses as [|[acc hd] rest IH]; cbn; intros h Hh.
    - discriminate.
    - destruct (acc e).
      + inversion Hh; subst. apply (Hc acc h). left. reflexivity.
      + apply IH; [|assumption].
        intros acc' h' e' Hin. apply (Hc acc' h'). right. assumption. }
  destruct (select_clause clauses e) as [h|]; [|reflexivity].
  rewrite (Hsel h eq_refl b g1).
  destruct (h e g1) as [[r g2] t2]. reflexivity.
Qed.

Lemma blind_files_setitem k v : flag_blind (files_setitem k v).
Proof.
  unfold files_setitem. apply blind_bind; [apply blind_get_files|].
  intros d. apply blind_put_files.
Qed.

Lemma blind_files_delitem k : flag_blind (files_delitem k).
Proof.
  unfold files_delitem. apply blind_bind; [apply blind_get_files|].
  intros d. destruct (Dict.mem k d);
    [apply blind_put_files | apply blind_raise].
Qed.

Lemma blind_files_getitem k : flag_blind (files_getitem k).
Proof.
  unfold files_getitem. apply blind_bind; [apply blind_get_files|].
  intros d. destruct k as [s|d']; [|apply blind_raise].
  destruct (Dict.get s d); [apply blind_ret | apply blind_raise].
Qed.

Lemma blind_find_magic fs filename starting_line magic_word :
  flag_blind (find_magic fs filename starting_line magic_word).
Proof.
  intros b g. destruct (content fs filename) as [errno|text] eqn:Hc.
  - rewrite !(find_magic_unopened _ _ _ _ _ _ Hc). reflexivity.
  - rewrite !(find_magic_spec _ _ _ _ _ _ Hc). reflexivity.
Qed.

Lemma blind_time_sleep secs : flag_blind (time_sleep secs).
Proof.
  unfold time_sleep.
  destruct ((secs <? - sleep_max) || (sleep_max <? secs));
    [apply blind_raise|].
  destruct (secs <? 0); [apply blind_raise | apply blind_emit].
Qed.

Lemma blind_watch_dir fs args : flag_blind (watch_dir fs args).
Proof.
  unfold watch_dir.
  apply blind_bind; [apply blind_emit|]. intros _.
  apply blind_bind.
  { unfold os_listdir. destruct (listing fs (path args));
      [apply blind_raise | apply blind_ret]. }
  intros file_list.
  apply blind_bind.
  { unfold add_new_files. apply blind_for_each. intros file.
    unfold add_if_new.
    apply blind_bind; [apply blind_get_files|]. intros d.
    destruct (Str.endswith file (ext args) && negb (Dict.mem file d)).
    - apply blind_bind; [apply blind_files_setitem|].
      intros _. apply blind_emit.
    - apply blind_ret. }
  intros _.
  apply blind_bind.
  { unfold remove_missing_files.
    apply blind_bind; [apply blind_get_files|]. intros snapshot.
    apply blind_for_each. intros file. unfold remove_if_missing.
    destruct (negb (Str.mem file file_list)).
    - apply blind_bind; [apply blind_emit|].
      intros _. apply blind_files_delitem.
    - apply blind_ret. }
  intros _. unfold scan_files.
  apply blind_bind; [apply blind_get_files|]. intros d.
  apply blind_for_each. intros file. unfold scan_file.
  apply blind_bind; [apply blind_get_files|]. intros d'.
  apply blind_bind; [apply blind_files_getitem|]. intros starting_line.
  apply blind_bind; [apply blind_find_magic|]. intros new_line.
  apply blind_files_setitem.
Qed.

Lemma blind_loop_body fs args : flag_blind (loop_body fs args).
Proof.
  unfold loop_body. apply blind_bind.
  - unfold try_watch_dir. apply blind_try_except.
    + apply blind_watch_dir.
    + intros accepts handler e [H|[H|[]]]; inversion H; subst.
      * unfold except_OSError.
        destruct (match errno_of e with
                  | Some errno => errno =? ENOENT
                  | None => false
                  end).
        -- apply blind_bind; [apply blind_emit|].
           intros _. apply blind_time_sleep.
        -- apply blind_emit.
      * apply blind_emit.
  - intros _. unfold sleep_interval.
    apply blind_bind; [|intros secs; apply blind_time_sleep].
    unfold lift. destruct (py_int (interval args));
      [apply blind_raise | apply blind_ret].
Qed.

(** The handler run before the body of the loop and the handler run after
    it leave the same globals, and the body does the same either way: so
    the place where a signal arrives in a pass decides only where the
    record of the handler stands. *)
Lemma handler_and_body_commute fs args sig_num g :
  loop_body fs args (snd (fst (signal_handler sig_num g))) =
    (fst (fst (loop_body fs args g)),
     snd (fst (signal_handler sig_num (snd (fst (loop_body fs args g))))),
     snd (loop_body fs args g)).
Proof.
  change (snd (fst (signal_handler sig_num g))) with (set_flag true g).
  rewrite (blind_loop_body fs args true g). reflexivity.
Qed.

(** ** A tracked file renamed out of the extension *)

Lemma mem_filter_other name k names :
  k <> name ->
  Str.mem k (filter (fun file => negb (String.eqb file name)) names) =
  Str.mem k names.
Proof.
  intros Hne. induction names as [|x rest IH]; [reflexivity|].
  cbn [filter Str.mem]. destruct (String.eqb x name) eqn:Ex; cbn [negb].
  - apply String.eqb_eq in Ex. subst x.
    apply String.eqb_neq in Hne. rewrite Hne. exact IH.
  - cbn [Str.mem]. rewrite IH. reflexivity.
Qed.

Lemma add_new_files_without args name names :
  Str.endswith name (ext args) = false ->
  forall g,
    add_new_files args
      (filter (fun file => negb (String.eqb file name)) names) g =
    add_new_files args names g.
Proof.
  intros Hend. unfold add_new_files.
  induction names as [|x rest IH]; intros g; [reflexivity|].
  cbn [filter]. destruct (String.eqb x name) eqn:Ex; cbn [negb for_each].
  - apply String.eqb_eq in Ex. subst x.
    assert (Hstep : add_if_new args name g = (inr tt, g, [])).
    { rewrite add_if_new_eq, Hend. reflexivity. }
    rewrite (bind_run _ _ _ _ _ _ _ _ Hstep). cbn [fst snd app].
    rewrite IH.
    destruct (for_each rest (add_if_new args) g) as [[r g1] t1].
    reflexivity.
  - unfold bind. destruct (add_if_new args x g) as [[[e|u] g1] t1];
      [reflexivity|].
    rewrite IH. reflexivity.
Qed.

Lemma remove_loop_without name names ks :
  ~ In name ks ->
  forall g,
    for_each ks
      (remove_if_missing
         (filter (fun file => negb (String.eqb file name)) names)) g =
    for_each ks (remove_if_missing names) g.
Proof.
  induction ks as [|k rest IH]; intros Hnotin g; [reflexivity|].
  cbn [for_each]. unfold bind.
  assert (Hk : remove_if_missing
                 (filter (fun file => negb (String.eqb file name)) names) k
               = remove_if_missing names k).
  { unfold remove_if_missing. rewrite mem_filter_other; [reflexivity|].
    intros ->. apply Hnotin. left. reflexivity. }
  rewrite Hk.
  destruct (remove_if_missing names k g) as [[[e|u] g1] t1]; [reflexivity|].
  rewrite IH; [reflexivity|].
  intros Hin. apply Hnotin. right. exact Hin.
Qed.

Lemma watch_dir_without fs args names name g :
  listing fs (path args) = inr names ->
  well_formed g ->
  Dict.mem name (files g) = false ->
  Str.endswith name (ext args) = false ->
  watch_dir fs args g = watch_dir (without name fs) args g.
Proof.
  intros Hl Hnd Hkey Hend.
  assert (Hl' : listing (without name fs) (path args) =
                inr (filter (fun file => negb (String.eqb file name)) names)).
  { cbn. rewrite Hl. reflexivity. }
  rewrite (watch_dir_run_eq fs args names g Hl Hnd).
  rewrite (watch_dir_run_eq (without name fs) args _ g Hl' Hnd).
  rewrite (add_new_files_without args name names Hend g).
  destruct (add_new_files_spec args names name g) as [_ [Hget _]].
  unfold Dict.mem in Hkey.
  destruct (Dict.get name (files g)); [discriminate|].
  rewrite Hend, andb_false_r in Hget.
  set (g1 := snd (fst (add_new_files args names g))) in *.
  assert (Hrem :
    remove_missing_files
      (filter (fun file => negb (String.eqb file name)) names) g1 =
    remove_missing_files names g1).
  { rewrite !remove_missing_files_unfold. apply remove_loop_without.
    intros Hin. apply mem_keys in Hin. unfold Dict.mem in Hin.
    rewrite Hget in Hin. discriminate. }
  rewrite Hrem. reflexivity.
Qed.

(** C5. A tracked file is renamed to a name that does not end with the
    extension: the directory still holds the file, under the new name,
    and the listing no longer has the old name, which is the key.  The
    cycle deletes the key and logs its removal once; the new name is not
    tracked; and the call does exactly what it does when the new name is
    not in the listing at all, as if the file had disappeared. *)
Theorem renamed_file_dropped_like_a_missing_one fs args file_list old_name
    new_name g tr :
  reachable args g tr ->
  listing fs (path args) = inr file_list ->
  Dict.mem old_name (files g) = true ->
  Str.mem old_name file_list = false ->
  Str.mem new_name file_list = true ->
  Str.endswith new_name (ext args) = false ->
  Dict.mem old_name (files (snd (fst (watch_dir fs args g)))) = false
  /\ count_records (is_removed old_name) (snd (watch_dir fs args g)) = 1%nat
  /\ Dict.mem new_name (files (snd (fst (watch_dir fs args g)))) = false
  /\ watch_dir fs args g = watch_dir (without new_name fs) args g.
Proof.
  intros Hr Hl Hold Hgone Hnew Hend.
  pose proof (reachable_well_formed args g tr Hr) as Hnd.
  assert (Hkey : Dict.mem new_name (files g) = false).
  { apply (matching_keys_only (ext args)); [|exact Hend].
    apply (reachable_ok args
             (fun kv => Str.endswith (fst kv) (ext args) = true))
      with (tr := tr); [intros file He; exact He | exact Hr]. }
  destruct (watch_dir_spec fs args file_list old_name g Hl Hnd)
    as [_ [_ [Hg1 _]]].
  destruct (watch_dir_spec fs args file_list new_name g Hl Hnd)
    as [_ [_ [Hg2 _]]].
  destruct (cycle_counts fs args file_list old_name g Hl Hnd) as [_ Hcount].
  split; [|split; [|split]].
  - unfold Dict.mem. rewrite Hg1, Hgone. reflexivity.
  - rewrite Hcount, Hold, Hgone. reflexivity.
  - unfold Dict.mem in *. rewrite Hg2, Hnew, Hend.
    destruct (Dict.get new_name (files g)); [discriminate | reflexivity].
  - apply (watch_dir_without fs args file_list new_name g Hl Hnd Hkey Hend).
Qed.

Lemma renamed_file_dropped_like_a_missing_one_witness :
  Dict.mem "a.txt"
    (files (snd (fst (watch_dir Fixture.fs_renamed Fixture.args_txt
                        Fixture.g_a)))) = false
  /\ count_records (is_removed "a.txt")
       (snd (watch_dir Fixture.fs_renamed Fixture.args_txt Fixture.g_a))
     = 1%nat
  /\ Dict.mem "a.bak"
       (files (snd (fst (watch_dir Fixture.fs_renamed Fixture.args_txt
                           Fixture.g_a)))) = false
  /\ watch_dir Fixture.fs_renamed Fixture.args_txt Fixture.g_a =
     watch_dir (without "a.bak" Fixture.fs_renamed) Fixture.args_txt
       Fixture.g_a.
Proof.
  apply (renamed_file_dropped_like_a_missing_one Fixture.fs_renamed
           Fixture.args_txt ["a.bak"] "a.txt" "a.bak" Fixture.g_a
           ([] ++ snd (watch_dir Fixture.fs_a Fixture.args_txt initial))).
  - apply (reach_cycle Fixture.args_txt Fixture.fs_a initial []).
    apply reach_initial.
  - reflexivity.
  - reflexivity.
  - reflexivity.
  - reflexivity.
  - reflexivity.
Defined.
